(** * Graffiti Wall API: the realtime core of [main.py]

    A shallow embedding of the WebSocket part of the server: the
    [ConnectionManager] (registry and fan-out), the [StrokeModel] schema, the
    snapshot read [list_strokes] and the per-connection coroutine
    [websocket_endpoint]; and of the HTTP handlers beside it, [create_stroke]
    and [test_database], with [serialize_doc].

    Conventions of the embedding
    - A [WebSocket] object is represented by its identity: Starlette compares
      connections with [object.__eq__], so [in], [remove] and [is] all
      decide identity.
    - Library calls (the ASGI socket, [json.loads], pydantic's per-type
      validators, the [database] module) are the fields of the class
      [Externals]; every theorem holds for all of them.
    - A coroutine is a function [state -> state * result A]: the state survives
      a raised exception, as Python's heap does.  Every library call that talks
      to the outside is written to [trace], so what the server did can be
      read back.
    - [exn] lists subclasses of [Exception] only; task cancellation is not
      modelled.
    - JSON numbers and Python floats are rationals; rounding is not modelled. *)

From Stdlib Require Import List String Bool Arith Lia QArith.
Import ListNotations.
Local Open Scope string_scope.
Local Open Scope nat_scope.
Local Open Scope list_scope.

(** ** Python values and exceptions *)

Definition WebSocket := nat.

Inductive exn : Type :=
| WebSocketDisconnect
| RuntimeError
| KeyError
| AttributeError
| TypeError
| ValueError
| ValidationError
| JSONDecodeError
| StoreError.

Inductive result (A : Type) : Type :=
| Ok (a : A)
| Raise (e : exn).
Arguments Ok {A} a.
Arguments Raise {A} e.

Definition is_ok {A} (r : result A) : bool :=
  match r with Ok _ => true | Raise _ => false end.

(** The Python objects that flow through the handler: what [json.loads]
    yields, plus the two non-JSON classes a stored document may hold. *)
#[warnings="-register-all"]
Inductive value : Type :=
| VNone
| VBool (b : bool)
| VNum (q : Q)
| VStr (s : string)
| VList (items : list value)
| VDict (entries : list (string * value))
| VObjectId (hex : string)
| VDatetime (iso : string).

Definition dict := list (string * value).

(** [d.get(k)] on a dict, [None] when the key is missing. *)
Fixpoint dict_get (k : string) (d : dict) : option value :=
  match d with
  | [] => None
  | (k', v) :: rest => if String.eqb k k' then Some v else dict_get k rest
  end.

(** [d[k] = v]: overwrite in place, or add at the end. *)
Fixpoint dict_set (k : string) (v : value) (d : dict) : dict :=
  match d with
  | [] => [(k, v)]
  | (k', v') :: rest =>
      if String.eqb k k' then (k', v) :: rest else (k', v') :: dict_set k v rest
  end.

(** [d.pop(k)] for a key known to be present: the dict without it. *)
Fixpoint dict_del (k : string) (d : dict) : dict :=
  match d with
  | [] => []
  | (k', v') :: rest =>
      if String.eqb k k' then rest else (k', v') :: dict_del k rest
  end.

(** [obj.get(k, default)] on an arbitrary object: only dicts have [get]. *)
Definition py_get (obj : value) (k : string) (default : value) : result value :=
  match obj with
  | VDict d => Ok (match dict_get k d with Some v => v | None => default end)
  | _ => Raise AttributeError
  end.

(** [v == s] for a string literal [s]. *)
Definition eq_str (v : value) (s : string) : bool :=
  match v with VStr s' => String.eqb s' s | _ => false end.

(** What [json.dumps] accepts: every JSON value, no [ObjectId], no
    [datetime]. *)
Fixpoint serialisable (v : value) : bool :=
  match v with
  | VObjectId _ | VDatetime _ => false
  | VList items => forallb serialisable items
  | VDict entries => forallb (fun kv => serialisable (snd kv)) entries
  | _ => true
  end.

(** [json.dumps(v)].  The text on the wire is represented by the value it
    encodes. *)
Definition json_dumps (v : value) : result value :=
  if serialisable v then Ok v else Raise TypeError.

(** ** The outside world *)

Class Externals : Type := {
  World : Type;
  (** [await websocket.accept()] *)
  ws_accept : WebSocket -> World -> World * result unit;
  (** [await websocket.send_text(text)] *)
  ws_send_text : WebSocket -> value -> World -> World * result unit;
  (** [await websocket.receive_text()] *)
  ws_receive_text : WebSocket -> World -> World * result string;
  (** [json.loads(data)] *)
  json_loads : string -> result value;
  (** pydantic's validators for the annotations [float] and [str] *)
  float_validator : value -> option Q;
  str_validator : value -> option string;
  (** [database.create_document(collection, data)] *)
  create_document : string -> value -> World -> World * result string;
  (** [database.db is None] *)
  db_is_none : bool;
  (** [database.get_documents(collection, filter, limit)] *)
  get_documents : string -> value -> nat -> World -> World * result (list dict);
  (** [str(obj)] *)
  py_str : value -> string
}.

Inductive event : Type :=
| EvAccept (ws : WebSocket) (ok : bool)
| EvSend (ws : WebSocket) (text : value) (ok : bool)
| EvReceive (ws : WebSocket) (ok : bool)
| EvPersist (collection : string) (doc : value) (ok : bool)
| EvQuery (collection : string) (limit : nat) (ok : bool).

(** The targets of the send attempts in a stretch of trace, all of them and
    the failed ones. *)
Fixpoint sent_to (evs : list event) : list WebSocket :=
  match evs with
  | [] => []
  | EvSend ws _ _ :: rest => ws :: sent_to rest
  | _ :: rest => sent_to rest
  end.

Fixpoint failed_to (evs : list event) : list WebSocket :=
  match evs with
  | [] => []
  | EvSend ws _ false :: rest => ws :: failed_to rest
  | _ :: rest => failed_to rest
  end.

Fixpoint texts_sent (evs : list event) : list value :=
  match evs with
  | [] => []
  | EvSend _ m _ :: rest => m :: texts_sent rest
  | _ :: rest => texts_sent rest
  end.

Definition is_persist (e : event) : bool :=
  match e with EvPersist _ _ _ => true | _ => false end.

Definition is_send (e : event) : bool :=
  match e with EvSend _ _ _ => true | _ => false end.

(** ** Registry operations on the list [self.active] *)

(** [websocket in self.active] *)
Fixpoint list_in (ws : WebSocket) (l : list WebSocket) : bool :=
  match l with
  | [] => false
  | x :: rest => if Nat.eqb x ws then true else list_in ws rest
  end.

(** [self.active.remove(websocket)]: drops the first occurrence, raises
    [ValueError] when there is none. *)
Fixpoint list_remove (ws : WebSocket) (l : list WebSocket)
  : result (list WebSocket) :=
  match l with
  | [] => Raise ValueError
  | x :: rest =>
      if Nat.eqb x ws then Ok rest
      else match list_remove ws rest with
           | Ok rest' => Ok (x :: rest')
           | Raise e => Raise e
           end
  end.

(** The list without the first occurrence of [ws], if there is one: what
    [disconnect] leaves, as shown in [remove_if_present_drop]. *)
Fixpoint drop_first (ws : WebSocket) (l : list WebSocket) : list WebSocket :=
  match l with
  | [] => []
  | x :: rest => if Nat.eqb x ws then rest else x :: drop_first ws rest
  end.

(** The body of [disconnect] on the list:
    [if websocket in self.active: self.active.remove(websocket)]. *)
Definition remove_if_present (ws : WebSocket) (l : list WebSocket)
  : result (list WebSocket) :=
  if list_in ws l then list_remove ws l else Ok l.

(** [sender is not None and connection is sender] *)
Definition is_sender (sender : option WebSocket) (connection : WebSocket) : bool :=
  match sender with
  | Some s => Nat.eqb connection s
  | None => false
  end.

(** The entries a broadcast from [sender] is meant for. *)
Definition others (sender : option WebSocket) (l : list WebSocket)
  : list WebSocket :=
  filter (fun c => negb (is_sender sender c)) l.

(** One [drop_first] per element of [dead], left to right. *)
Definition drop_all (dead l : list WebSocket) : list WebSocket :=
  fold_left (fun acc d => drop_first d acc) dead l.

Section Server.
Context {E : Externals}.

Record state : Type := mkState {
  world : World;
  active : list WebSocket;
  trace : list event
}.

(** Events appended to the trace between two states. *)
Definition events_between (st st' : state) : list event :=
  skipn (List.length (trace st)) (trace st').

(** *** Coroutines *)

Definition M (A : Type) : Type := state -> state * result A.

Definition ret {A} (a : A) : M A := fun st => (st, Ok a).

Definition raise {A} (e : exn) : M A := fun st => (st, Raise e).

Definition bind {A B} (m : M A) (f : A -> M B) : M B :=
  fun st =>
    match m st with
    | (st', Ok a) => f a st'
    | (st', Raise e) => (st', Raise e)
    end.

(** [try: m  except Exception: h] *)
Definition try_except {A} (m : M A) (h : M A) : M A :=
  fun st =>
    match m st with
    | (st', Ok a) => (st', Ok a)
    | (st', Raise _) => h st'
    end.

Definition lift {A} (r : result A) : M A := fun st => (st, r).

Notation "x <- m ;; k" := (bind m (fun x => k))
  (at level 61, m at next level, right associativity).
Notation "m ;;; k" := (bind m (fun _ => k))
  (at level 61, right associativity).

Definition log (st : state) (w : World) (ev : event) : state :=
  mkState w (active st) (trace st ++ [ev]).

Definition accept (ws : WebSocket) : M unit :=
  fun st =>
    let (w, r) := ws_accept ws (world st) in
    (log st w (EvAccept ws (is_ok r)), r).

Definition send_text (ws : WebSocket) (text : value) : M unit :=
  fun st =>
    let (w, r) := ws_send_text ws text (world st) in
    (log st w (EvSend ws text (is_ok r)), r).

Definition receive_text (ws : WebSocket) : M string :=
  fun st =>
    let (w, r) := ws_receive_text ws (world st) in
    (log st w (EvReceive ws (is_ok r)), r).

Definition persist (collection : string) (doc : value) : M string :=
  fun st =>
    let (w, r) := create_document collection doc (world st) in
    (log st w (EvPersist collection doc (is_ok r)), r).

Definition query (collection : string) (filter : value) (limit : nat)
  : M (list dict) :=
  fun st =>
    let (w, r) := get_documents collection filter limit (world st) in
    (log st w (EvQuery collection limit (is_ok r)), r).

(** *** class ConnectionManager *)

(** [async def connect(self, websocket)] *)
Definition connect (websocket : WebSocket) : M unit :=
  accept websocket ;;;
  fun st => (mkState (world st) (active st ++ [websocket]) (trace st), Ok tt).

(** [def disconnect(self, websocket)] *)
Definition disconnect (websocket : WebSocket) : M unit :=
  fun st =>
    match remove_if_present websocket (active st) with
    | Ok l => (mkState (world st) l (trace st), Ok tt)
    | Raise e => (st, Raise e)
    end.

(** The first loop of [broadcast], run while no other task touches
    [self.active]: the list iterator then meets the entries of the list as it
    stood on entry, one after the other.  Returns [dead]. *)
Fixpoint walk (conns : list WebSocket) (message : value)
    (sender : option WebSocket) (dead : list WebSocket) : M (list WebSocket) :=
  match conns with
  | [] => ret dead
  | connection :: rest =>
      if is_sender sender connection then walk rest message sender dead
      else
        dead' <- try_except (send_text connection message ;;; ret dead)
                            (ret (dead ++ [connection])) ;;
        walk rest message sender dead'
  end.

(** [for d in dead: self.disconnect(d)] *)
Fixpoint sweep (dead : list WebSocket) : M unit :=
  match dead with
  | [] => ret tt
  | d :: rest => disconnect d ;;; sweep rest
  end.

(** [async def broadcast(self, message, sender=None)] *)
Definition broadcast (message : value) (sender : option WebSocket) : M unit :=
  fun st => (dead <- walk (active st) message sender [] ;; sweep dead) st.


(** *** class StrokeModel(BaseModel) *)

Record StrokeModel : Type := mkStroke {
  points : list (list Q);
  color : string;
  size : Q;
  user : option string
}.

Fixpoint all_some {A} (l : list (option A)) : option (list A) :=
  match l with
  | [] => Some []
  | None :: _ => None
  | Some a :: rest =>
      match all_some rest with
      | Some rest' => Some (a :: rest')
      | None => None
      end
  end.

(** [points: List[List[float]] = Field(...)] *)
Definition validate_points (v : value) : option (list (list Q)) :=
  match v with
  | VList rows =>
      all_some
        (map (fun row =>
                match row with
                | VList xs => all_some (map float_validator xs)
                | _ => None
                end) rows)
  | _ => None
  end.

(** [color: str = Field("#ff0055")] *)
Definition validate_color (field : option value) : option string :=
  match field with
  | None => Some "#ff0055"
  | Some v => str_validator v
  end.

(** [size: float = Field(8, ge=1, le=100)] *)
Definition validate_size (field : option value) : option Q :=
  match field with
  | None => Some (8 # 1)%Q
  | Some v =>
      match float_validator v with
      | Some q => if Qle_bool (1 # 1) q && Qle_bool q (100 # 1) then Some q else None
      | None => None
      end
  end.

(** [user: Optional[str] = None] *)
Definition validate_user (field : option value) : option (option string) :=
  match field with
  | None => Some None
  | Some VNone => Some None
  | Some v => option_map Some (str_validator v)
  end.

(** Keyword-argument construction of [StrokeModel] from the entries of a dict. *)
Definition StrokeModel_init (kwargs : dict) : result StrokeModel :=
  match dict_get "points" kwargs with
  | None => Raise ValidationError
  | Some pv =>
      match validate_points pv,
            validate_color (dict_get "color" kwargs),
            validate_size (dict_get "size" kwargs),
            validate_user (dict_get "user" kwargs) with
      | Some p, Some c, Some s, Some u => Ok (mkStroke p c s u)
      | _, _, _, _ => Raise ValidationError
      end
  end.

(** Construction from an unpacked object (double-star call): unpacking needs a
    mapping. *)
Definition StrokeModel_unpack (obj : value) : result StrokeModel :=
  match obj with
  | VDict kwargs => StrokeModel_init kwargs
  | _ => Raise TypeError
  end.

(** [stroke.model_dump()] *)
Definition model_dump (stroke : StrokeModel) : dict :=
  [ ("points", VList (map (fun row => VList (map VNum row)) (points stroke)));
    ("color", VStr (color stroke));
    ("size", VNum (size stroke));
    ("user", match user stroke with Some u => VStr u | None => VNone end) ].

(** *** def serialize_doc(doc) *)

Definition isoformat_field (k : string) (d : dict) : dict :=
  match dict_get k d with
  | Some (VDatetime iso) => dict_set k (VStr iso) d
  | _ => d
  end.

Definition serialize_doc (doc : dict) : dict :=
  let d := doc in
  let d :=
    match dict_get "_id" d with
    | None | Some VNone => d
    | Some oid => dict_set "id" (VStr (py_str oid)) (dict_del "_id" d)
    end in
  isoformat_field "updated_at" (isoformat_field "created_at" d).

(** *** def list_strokes(limit=1000) *)

Definition list_strokes (limit : nat) : M value :=
  if db_is_none then ret (VDict [("strokes", VList [])])
  else
    docs <- query "stroke" (VDict []) limit ;;
    ret (VDict [("strokes", VList (map (fun d => VDict (serialize_doc d)) docs))]).

(** *** async def websocket_endpoint(websocket) *)

(** The snapshot read of the join: [try: initial = list_strokes().get(..)
    except Exception: initial = []]. *)
Definition fetch_initial : M value :=
  try_except (r <- list_strokes 1000 ;; lift (py_get r "strokes" (VList [])))
             (ret (VList [])).

Definition init_envelope (initial : value) : value :=
  VDict [("type", VStr "init"); ("strokes", initial)].

Definition stroke_envelope (stroke : StrokeModel) (sid : value) : value :=
  VDict [("type", VStr "stroke");
         ("stroke", VDict (dict_set "id" sid (model_dump stroke)))].

(** Lines 128-133: the snapshot and the [init] message. *)
Definition send_init (websocket : WebSocket) : M unit :=
  initial <- fetch_initial ;;
  text <- lift (json_dumps (init_envelope initial)) ;;
  send_text websocket text.

(** One pass through the body of [while True].  [Ok tt] is the arrival at
    the next iteration (by [continue] or by falling off the end); [Raise e]
    is an exception that leaves the loop. *)
Definition loop_body (websocket : WebSocket) : M unit :=
  data <- receive_text websocket ;;
  match json_loads data with
  | Raise _ => ret tt
  | Ok payload =>
      ty <- lift (py_get payload "type" VNone) ;;
      if eq_str ty "stroke" then
        match match py_get payload "stroke" (VDict []) with
              | Ok obj => StrokeModel_unpack obj
              | Raise e => Raise e
              end with
        | Raise _ => ret tt
        | Ok stroke =>
            sid <- try_except
                     (i <- persist "stroke" (VDict (model_dump stroke)) ;; ret (VStr i))
                     (ret VNone) ;;
            text <- lift (json_dumps (stroke_envelope stroke sid)) ;;
            broadcast text (Some websocket)
        end
      else ret tt
  end.

(** [while True]: at most [fuel] passes.  The loop has no [break]: it ends
    only by an exception, [None] means it is still running. *)
Fixpoint receive_loop (fuel : nat) (websocket : WebSocket) (st : state)
  : option (state * exn) :=
  match fuel with
  | O => None
  | S fuel' =>
      match loop_body websocket st with
      | (st', Ok _) => receive_loop fuel' websocket st'
      | (st', Raise e) => Some (st', e)
      end
  end.

Definition is_disconnect (e : exn) : bool :=
  match e with WebSocketDisconnect => true | _ => false end.

(** [except WebSocketDisconnect: manager.disconnect(websocket)]; any other
    exception leaves the coroutine. *)
Definition on_exception (websocket : WebSocket) (e : exn) : M unit :=
  if is_disconnect e then disconnect websocket else raise e.

Definition websocket_endpoint (fuel : nat) (websocket : WebSocket) (st : state)
  : option (state * result unit) :=
  match connect websocket st with
  | (st1, Raise e) => Some (st1, Raise e)
  | (st1, Ok _) =>
      match send_init websocket st1 with
      | (st2, Raise e) => Some (on_exception websocket e st2)
      | (st2, Ok _) =>
          match receive_loop fuel websocket st2 with
          | None => None
          | Some (st3, e) => Some (on_exception websocket e st3)
          end
      end
  end.

(** *** [broadcast] among other tasks

    [await connection.send_text(message)] suspends the task; until it resumes
    the handlers of other connections may run [connect] and [disconnect] on
    the same [manager.active].  Python's list iterator is an index into the
    live list: each step reads entry [i] of the list as it is then, and stops
    when [i] is past its end. *)

Inductive regop : Type :=
| OpConnect (ws : WebSocket)
| OpDisconnect (ws : WebSocket).

Definition apply_op (l : list WebSocket) (op : regop) : list WebSocket :=
  match op with
  | OpConnect ws => l ++ [ws]
  | OpDisconnect ws =>
      match remove_if_present ws l with Ok l' => l' | Raise _ => l end
  end.

(** What the other tasks did during one suspension. *)
Definition resume (ops : list regop) (st : state) : state :=
  mkState (world st) (fold_left apply_op ops (active st)) (trace st).

(** The first loop of [broadcast] with the iterator at index [i];
    [schedule] lists, suspension by suspension, what the other tasks do
    (nothing once it is used up).  [None]: out of fuel. *)
Fixpoint iterate (fuel i : nat) (schedule : list (list regop))
    (message : value) (sender : option WebSocket) (dead : list WebSocket)
    (st : state) : option (state * list WebSocket) :=
  match fuel with
  | O => None
  | S fuel' =>
      match nth_error (active st) i with
      | None => Some (st, dead)
      | Some connection =>
          if is_sender sender connection then
            iterate fuel' (S i) schedule message sender dead st
          else
            let (st1, r) := send_text connection message st in
            let st2 := resume (hd [] schedule) st1 in
            let dead' := match r with
                         | Ok _ => dead
                         | Raise _ => dead ++ [connection]
                         end in
            iterate fuel' (S i) (tl schedule) message sender dead' st2
      end
  end.

Definition broadcast_among (fuel : nat) (schedule : list (list regop))
    (message : value) (sender : option WebSocket) (st : state)
  : option (state * result unit) :=
  match iterate fuel 0 schedule message sender [] st with
  | None => None
  | Some (st', dead) => Some (sweep dead st')
  end.

End Server.

Arguments state E : clear implicits.
Arguments M E A : clear implicits.

(** ** A scripted outside world, for concrete runs

    The world is the queue of frames still to arrive; a socket listed in
    [broken] rejects every send; the store accepts writes iff [store_up]. *)

Definition frame_stroke_ok : string :=
  "{'type':'stroke','stroke':{'points':[[0,0],[1,1]],'color':'#ff0055','size':8}}".
Definition frame_stroke_big : string :=
  "{'type':'stroke','stroke':{'points':[[0,0],[1,1]],'size':500}}".
Definition frame_ping : string := "{'type':'ping'}".
Definition frame_array : string := "[]".
Definition frame_garbage : string := "{'type':".

Definition sample_points : value :=
  VList [VList [VNum (0 # 1); VNum (0 # 1)]; VList [VNum (1 # 1); VNum (1 # 1)]].

Definition scripted_loads (data : string) : result value :=
  if String.eqb data frame_stroke_ok then
    Ok (VDict [("type", VStr "stroke");
               ("stroke", VDict [("points", sample_points);
                                 ("color", VStr "#ff0055");
                                 ("size", VNum (8 # 1))])])
  else if String.eqb data frame_stroke_big then
    Ok (VDict [("type", VStr "stroke");
               ("stroke", VDict [("points", sample_points);
                                 ("size", VNum (500 # 1))])])
  else if String.eqb data frame_ping then Ok (VDict [("type", VStr "ping")])
  else if String.eqb data frame_array then Ok (VList [])
  else Raise JSONDecodeError.

Definition scripted (broken : list WebSocket) (store_up : bool) : Externals :=
  {| World := list (result string);
     ws_accept := fun _ w => (w, Ok tt);
     ws_send_text := fun ws _ w =>
       (w, if list_in ws broken then Raise RuntimeError else Ok tt);
     ws_receive_text := fun _ w =>
       match w with
       | [] => ([], Raise WebSocketDisconnect)
       | frame :: rest => (rest, frame)
       end;
     json_loads := scripted_loads;
     float_validator := fun v => match v with VNum q => Some q | _ => None end;
     str_validator := fun v => match v with VStr s => Some s | _ => None end;
     create_document := fun _ _ w =>
       (w, if store_up then Ok "65f0c0ffee" else Raise StoreError);
     db_is_none := false;
     get_documents := fun _ _ _ w =>
       (w, if store_up then Ok [] else Raise StoreError);
     py_str := fun v => match v with VObjectId h => h | VStr s => s | _ => "" end
  |}.

(** ** Vocabulary for the statements *)

(** A coroutine respects a relation [R] between the registry before and
    after. *)
Definition keeps {E : Externals} {A : Type}
    (R : list WebSocket -> list WebSocket -> Prop) (m : M E A) : Prop :=
  forall st, R (active st) (active (fst (m st))).

(** The registry holds as many entries for [ws] as before. *)
Definition same_count (ws : WebSocket) (a a' : list WebSocket) : Prop :=
  count_occ Nat.eq_dec a' ws = count_occ Nat.eq_dec a ws.

(** The events a coroutine appends to the trace satisfy [Q]. *)
Definition emits {E : Externals} {A : Type}
    (Q : list event -> Prop) (m : M E A) : Prop :=
  forall st, exists evs, trace (fst (m st)) = trace st ++ evs /\ Q evs.

(** The texts of the sends to [ws] in a stretch of trace. *)
Fixpoint texts_to (ws : WebSocket) (evs : list event) : list value :=
  match evs with
  | [] => []
  | EvSend c text _ :: rest =>
      if Nat.eqb c ws then text :: texts_to ws rest else texts_to ws rest
  | _ :: rest => texts_to ws rest
  end.

(** No send in this stretch of trace targets [ws]. *)
Definition silent_to (ws : WebSocket) (evs : list event) : Prop :=
  texts_to ws evs = [].

(** Python dicts have one entry per key. *)
Definition unique_keys (d : dict) : Prop := NoDup (map fst d).

(** ** The HTTP endpoints beside the socket *)

(** [def create_stroke(stroke)], the body of [POST /api/strokes]. *)
Definition create_stroke {E : Externals} (stroke : StrokeModel) : M E value :=
  bind (persist "stroke" (VDict (model_dump stroke)))
       (fun stroke_id => ret (VDict [("id", VStr stroke_id)])).

(** The database handle as [test_database] uses it: its [name] attribute, if
    it has one, and what [list_collection_names()] does, the names or an
    exception with the text [str(e)]. *)
Inductive listing : Type :=
| Names (collections : list string)
| ListingError (message : string).

Record Database : Type := mkDatabase {
  db_name : option value;
  list_collection_names : listing
}.

(** Truth value of [os.getenv(k)]: set and not empty. *)
Definition env_set (v : option string) : bool :=
  match v with
  | Some s => negb (String.eqb s "")
  | None => false
  end.

Definition set_or_not (b : bool) : value :=
  VStr (if b then "✅ Set" else "❌ Not Set").

(** [def test_database()].  [db] is read only when [database.db] is not
    [None].  Nothing inside the outer [try] but the listing can raise, and
    that is caught by the inner handler, so the outer handler has no run.
    [str(e)[:50]] is taken on the characters of the Rocq string. *)
Definition test_database {E : Externals} (db : Database)
    (getenv : string -> option string) : dict :=
  let response :=
    [ ("backend", VStr "✅ Running");
      ("database", VStr "❌ Not Available");
      ("database_url", VNone);
      ("database_name", VNone);
      ("connection_status", VStr "Not Connected");
      ("collections", VList []) ] in
  let response :=
    if db_is_none then
      dict_set "database" (VStr "⚠️  Available but not initialized") response
    else
      let response := dict_set "database" (VStr "✅ Available") response in
      let response := dict_set "database_url" (VStr "✅ Configured") response in
      let response :=
        dict_set "database_name"
                 (match db_name db with
                  | Some n => n
                  | None => VStr "✅ Connected"
                  end) response in
      let response := dict_set "connection_status" (VStr "Connected") response in
      match list_collection_names db with
      | Names collections =>
          let response :=
            dict_set "collections" (VList (map VStr (firstn 10 collections)))
                     response in
          dict_set "database" (VStr "✅ Connected & Working") response
      | ListingError message =>
          dict_set "database"
                   (VStr ("⚠️  Connected but Error: "
                          ++ substring 0 50 message)%string) response
      end in
  let response :=
    dict_set "database_url" (set_or_not (env_set (getenv "DATABASE_URL")))
             response in
  dict_set "database_name" (set_or_not (env_set (getenv "DATABASE_NAME")))
           response.

(** What [serialize_doc] makes of the value under a timestamp key. *)
Definition isoformat_value (v : value) : value :=
  match v with
  | VDatetime iso => VStr iso
  | _ => v
  end.

(** An entry [json.dumps] accepts as it is, or a [datetime] under one of the
    keys [ts]. *)
Definition dumpable_but (ts : list string) (kv : string * value) : Prop :=
  serialisable (snd kv) = true \/
  (In (fst kv) ts /\ exists iso, snd kv = VDatetime iso).

(** ** Two more scripted worlds *)

(** As [scripted [] true], but the handshake of the sockets in [refused]
    fails. *)
Definition refusing (refused : list WebSocket) : Externals :=
  {| World := list (result string);
     ws_accept := fun ws w =>
       (w, if list_in ws refused then Raise RuntimeError else Ok tt);
     ws_send_text := @ws_send_text (scripted [] true);
     ws_receive_text := @ws_receive_text (scripted [] true);
     json_loads := scripted_loads;
     float_validator := @float_validator (scripted [] true);
     str_validator := @str_validator (scripted [] true);
     create_document := @create_document (scripted [] true);
     db_is_none := false;
     get_documents := @get_documents (scripted [] true);
     py_str := @py_str (scripted [] true)
  |}.

(** As [scripted [] true], with [docs] in the store: a query returns the
    first [limit] of them. *)
Definition stocked (docs : list dict) : Externals :=
  {| World := list (result string);
     ws_accept := @ws_accept (scripted [] true);
     ws_send_text := @ws_send_text (scripted [] true);
     ws_receive_text := @ws_receive_text (scripted [] true);
     json_loads := scripted_loads;
     float_validator := @float_validator (scripted [] true);
     str_validator := @str_validator (scripted [] true);
     create_document := @create_document (scripted [] true);
     db_is_none := false;
     get_documents := fun _ _ limit w => (w, Ok (firstn limit docs));
     py_str := @py_str (scripted [] true)
  |}.

(** A stored stroke as the driver returns it. *)
Definition stored_stroke : dict :=
  [ ("_id", VObjectId "65f0c0ffee");
    ("points", sample_points);
    ("color", VStr "#ff0055");
    ("size", VNum (8 # 1));
    ("user", VNone);
    ("created_at", VDatetime "2024-03-12T10:00:00") ].

(** Other tasks only register sessions during this suspension. *)
Definition joins_only (ops : list regop) : Prop :=
  forall op, In op ops -> exists ws, op = OpConnect ws.

(** The six fields of the report of [test_database], in the order the
    source builds them. *)
Definition report_keys : list string :=
  ["backend"; "database"; "database_url"; "database_name";
   "connection_status"; "collections"].

(** A world that keeps the sockets it has accepted: [accept] on a socket
    that is already accepted raises [RuntimeError], as Starlette's does once
    the connection has left its connecting state.  Sends succeed, the store is
    up and empty. *)
Definition once_only : Externals :=
  {| World := list WebSocket * list (result string);
     ws_accept := fun ws w =>
       if list_in ws (fst w) then (w, Raise RuntimeError)
       else ((ws :: fst w, snd w), Ok tt);
     ws_send_text := fun _ _ w => (w, Ok tt);
     ws_receive_text := fun _ w =>
       match snd w with
       | [] => (w, Raise WebSocketDisconnect)
       | frame :: rest => ((fst w, rest), frame)
       end;
     json_loads := scripted_loads;
     float_validator := fun v => match v with VNum q => Some q | _ => None end;
     str_validator := fun v => match v with VStr t => Some t | _ => None end;
     create_document := fun _ _ w => (w, Ok "65f0c0ffee");
     db_is_none := false;
     get_documents := fun _ _ _ w => (w, Ok []);
     py_str := fun v => match v with VObjectId h => h | VStr t => t | _ => "" end
  |}.

(** * Properties *)

(** ** The registry as a list *)

Lemma list_in_In (ws : WebSocket) (l : list WebSocket) :
  list_in ws l = true <-> In ws l.
Proof.
  induction l as [|x rest IH]; simpl.
  - split; [discriminate | tauto].
  - destruct (Nat.eqb_spec x ws) as [->|Hne].
    + split; auto.
    + rewrite IH. split; [auto | intros [H|H]; [contradiction | exact H]].
Qed.

Lemma list_in_false (ws : WebSocket) (l : list WebSocket) :
  list_in ws l = false <-> ~ In ws l.
Proof.
  rewrite <- list_in_In. destruct (list_in ws l); split; congruence.
Qed.

Lemma list_remove_drop (ws : WebSocket) (l : list WebSocket) :
  list_in ws l = true -> list_remove ws l = Ok (drop_first ws l).
Proof.
  induction l as [|x rest IH]; simpl; [discriminate|].
  destruct (Nat.eqb x ws); [reflexivity|].
  intros H. rewrite (IH H). reflexivity.
Qed.

Lemma drop_first_absent (ws : WebSocket) (l : list WebSocket) :
  list_in ws l = false -> drop_first ws l = l.
Proof.
  induction l as [|x rest IH]; simpl; [reflexivity|].
  destruct (Nat.eqb x ws); [discriminate|].
  intros H. now rewrite (IH H).
Qed.

(** [disconnect] never reaches the [ValueError] of [list.remove]. *)
Lemma remove_if_present_drop (ws : WebSocket) (l : list WebSocket) :
  remove_if_present ws l = Ok (drop_first ws l).
Proof.
  unfold remove_if_present. destruct (list_in ws l) eqn:Hin.
  - now apply list_remove_drop.
  - now rewrite drop_first_absent.
Qed.

Lemma count_drop_first (ws x : WebSocket) (l : list WebSocket) :
  count_occ Nat.eq_dec (drop_first ws l) x =
  if Nat.eqb x ws then pred (count_occ Nat.eq_dec l x)
  else count_occ Nat.eq_dec l x.
Proof.
  induction l as [|y rest IH]; simpl.
  - now destruct (Nat.eqb x ws).
  - destruct (Nat.eqb_spec y ws) as [->|Hy].
    + destruct (Nat.eqb_spec x ws) as [->|Hx].
      * destruct (Nat.eq_dec ws ws); [reflexivity | contradiction].
      * destruct (Nat.eq_dec ws x); [congruence | reflexivity].
    + simpl. rewrite IH.
      destruct (Nat.eqb_spec x ws) as [->|Hx].
      * destruct (Nat.eq_dec y ws); [contradiction | reflexivity].
      * destruct (Nat.eq_dec y x); reflexivity.
Qed.

Lemma length_drop_first (ws : WebSocket) (l : list WebSocket) :
  List.length (drop_first ws l) =
  if list_in ws l then pred (List.length l) else List.length l.
Proof.
  induction l as [|x rest IH]; simpl; [reflexivity|].
  destruct (Nat.eqb x ws); [reflexivity|].
  simpl. rewrite IH.
  destruct (list_in ws rest) eqn:Hin; [|reflexivity].
  destruct rest; [discriminate | reflexivity].
Qed.

Lemma drop_first_filter (ws : WebSocket) (l : list WebSocket) :
  count_occ Nat.eq_dec l ws <= 1 ->
  drop_first ws l = filter (fun c => negb (Nat.eqb c ws)) l.
Proof.
  induction l as [|x rest IH]; simpl; [reflexivity|].
  destruct (Nat.eqb_spec x ws) as [->|Hx]; simpl.
  - destruct (Nat.eq_dec ws ws) as [_|]; [|contradiction].
    intros H. assert (Hc : count_occ Nat.eq_dec rest ws = 0) by lia.
    rewrite <- drop_first_absent at 1.
    + clear IH H. induction rest as [|y r IHr]; simpl in *; [reflexivity|].
      destruct (Nat.eq_dec y ws) as [->|Hy]; [discriminate|].
      apply Nat.eqb_neq in Hy. rewrite Hy. simpl. f_equal.
      rewrite (IHr Hc) at 1. reflexivity.
    + apply list_in_false. now apply (count_occ_not_In Nat.eq_dec).
  - destruct (Nat.eq_dec x ws); [contradiction|].
    intros H. now rewrite IH.
Qed.

(** ** Traces *)

Lemma events_between_app {E : Externals} (st st' : state E) (evs : list event) :
  trace st' = trace st ++ evs -> events_between st st' = evs.
Proof.
  unfold events_between. intros ->.
  rewrite skipn_app, skipn_all, Nat.sub_diag. reflexivity.
Qed.

Lemma failed_incl_sent (evs : list event) (c : WebSocket) :
  In c (failed_to evs) -> In c (sent_to evs).
Proof.
  induction evs as [|e evs IH]; simpl; [tauto|].
  destruct e as [| ? ? [|] | | |]; simpl; tauto.
Qed.

(** ** The fan-out loop *)

Section BroadcastFacts.
Context {E : Externals}.

(** What the first loop of [broadcast] does on the entries [conns]: one send
    per entry that is not the sender, in order, each with [message]; the
    registry is left alone; [dead] grows by the targets of the failed sends. *)
Lemma walk_spec (message : value) (sender : option WebSocket)
    (conns dead : list WebSocket) (st : state E) :
  exists st' evs,
    walk conns message sender dead st = (st', Ok (dead ++ failed_to evs)) /\
    active st' = active st /\
    trace st' = trace st ++ evs /\
    sent_to evs = others sender conns /\
    texts_sent evs = map (fun _ => message) (others sender conns) /\
    forallb is_send evs = true.
Proof.
  revert dead st.
  induction conns as [|c rest IH]; intros dead st; simpl.
  - exists st, []. simpl. rewrite !app_nil_r. repeat split; reflexivity.
  - destruct (is_sender sender c) eqn:Hs; simpl.
    + apply IH.
    + unfold bind at 1, try_except, bind, send_text, ret.
      destruct (ws_send_text c message (world st)) as [w [[]|e]] eqn:Hsend; simpl.
      * destruct (IH dead (log st w (EvSend c message true)))
          as (st' & evs & Hw & Ha & Ht & Hto & Htx & Hall).
        simpl in Ha, Ht.
        exists st', (EvSend c message true :: evs). simpl.
        split; [exact Hw|]. split; [exact Ha|].
        split; [now rewrite Ht, <- app_assoc|].
        split; [now f_equal|]. split; [now f_equal | exact Hall].
      * destruct (IH (dead ++ [c]) (log st w (EvSend c message false)))
          as (st' & evs & Hw & Ha & Ht & Hto & Htx & Hall).
        simpl in Ha, Ht.
        exists st', (EvSend c message false :: evs). simpl.
        split; [now rewrite Hw, <- app_assoc|]. split; [exact Ha|].
        split; [now rewrite Ht, <- app_assoc|].
        split; [now f_equal|]. split; [now f_equal | exact Hall].
Qed.

Lemma disconnect_eq (ws : WebSocket) (st : state E) :
  disconnect ws st =
  (mkState (world st) (drop_first ws (active st)) (trace st), Ok tt).
Proof.
  unfold disconnect. now rewrite remove_if_present_drop.
Qed.

(** The second loop of [broadcast] removes one entry per element of [dead]
    and touches nothing else. *)
Lemma sweep_spec (dead : list WebSocket) (st : state E) :
  sweep dead st =
  (mkState (world st) (drop_all dead (active st)) (trace st), Ok tt).
Proof.
  revert st. induction dead as [|d rest IH]; intros st; simpl.
  - destruct st; reflexivity.
  - unfold bind. rewrite disconnect_eq. rewrite IH. reflexivity.
Qed.

Lemma broadcast_spec (message : value) (sender : option WebSocket) (st : state E) :
  exists w evs,
    broadcast message sender st =
      (mkState w (drop_all (failed_to evs) (active st)) (trace st ++ evs), Ok tt) /\
    sent_to evs = others sender (active st) /\
    texts_sent evs = map (fun _ => message) (others sender (active st)) /\
    forallb is_send evs = true /\
    exists st1,
      walk (active st) message sender [] st = (st1, Ok (failed_to evs)) /\
      active st1 = active st.
Proof.
  destruct (walk_spec message sender (active st) [] st)
    as (st1 & evs & Hw & Ha & Ht & Hto & Htx & Hall).
  simpl in Hw.
  exists (world st1), evs. repeat split; try assumption.
  - unfold broadcast, bind. rewrite Hw, sweep_spec, Ha, Ht. reflexivity.
  - exists st1. split; assumption.
Qed.

Lemma count_drop_all (dead l : list WebSocket) (c : WebSocket) :
  count_occ Nat.eq_dec (drop_all dead l) c =
  count_occ Nat.eq_dec l c - count_occ Nat.eq_dec dead c.
Proof.
  unfold drop_all. revert l.
  induction dead as [|d rest IH]; intros l; simpl; [lia|].
  rewrite IH, count_drop_first.
  destruct (Nat.eqb_spec c d) as [->|Hne].
  - destruct (Nat.eq_dec d d); [lia | contradiction].
  - destruct (Nat.eq_dec d c); [congruence | lia].
Qed.

Lemma NoDup_count_le (l : list WebSocket) (c : WebSocket) :
  NoDup l -> count_occ Nat.eq_dec l c <= 1.
Proof.
  intros H. rewrite (NoDup_count_occ Nat.eq_dec) in H. apply H.
Qed.

Lemma drop_all_filter (dead l : list WebSocket) :
  NoDup l ->
  drop_all dead l = filter (fun c => negb (list_in c dead)) l.
Proof.
  unfold drop_all. revert l.
  induction dead as [|d rest IH]; intros l Hnd; simpl.
  - induction l as [|x l IHl]; simpl; [reflexivity|].
    inversion Hnd; subst. now rewrite <- IHl.
  - rewrite drop_first_filter by now apply NoDup_count_le.
    rewrite IH by now apply NoDup_filter.
    clear. induction l as [|x l IHl]; simpl; [reflexivity|].
    rewrite (Nat.eqb_sym d x).
    destruct (Nat.eqb x d); simpl; [exact IHl|].
    destruct (list_in x rest); simpl; [exact IHl | now f_equal].
Qed.

End BroadcastFacts.

Lemma count_others (sender : option WebSocket) (l : list WebSocket) (c : WebSocket) :
  count_occ Nat.eq_dec (others sender l) c =
  if is_sender sender c then 0 else count_occ Nat.eq_dec l c.
Proof.
  unfold others. induction l as [|x l IH]; simpl.
  - now destruct (is_sender sender c).
  - destruct (Nat.eq_dec x c) as [->|Hne].
    + destruct (is_sender sender c); simpl; [exact IH|].
      destruct (Nat.eq_dec c c); [now rewrite IH | contradiction].
    + destruct (is_sender sender x); simpl; [exact IH|].
      destruct (Nat.eq_dec x c); [contradiction | exact IH].
Qed.

Lemma connect_inv {E : Externals} (ws : WebSocket) (st st1 : state E) :
  connect ws st = (st1, Ok tt) ->
  active st1 = active st ++ [ws] /\
  trace st1 = trace st ++ [EvAccept ws true].
Proof.
  unfold connect, bind, accept.
  destruct (ws_accept ws (world st)) as [w [[]|e]]; simpl;
    intros H; inversion H; subst; simpl; auto.
Qed.

(** ** The list iterator and the structural loop agree when nobody else
    touches the registry *)

Lemma skipn_nth_some {A} (l : list A) (i : nat) (x : A) :
  nth_error l i = Some x -> skipn i l = x :: skipn (S i) l.
Proof.
  revert i. induction l as [|y l IH]; intros [|i]; simpl; try discriminate.
  - now intros [= ->].
  - intros H. now rewrite (IH i H).
Qed.

Lemma skipn_nth_none {A} (l : list A) (i : nat) :
  nth_error l i = None -> skipn i l = [].
Proof.
  intros H. apply skipn_all2. now apply nth_error_None.
Qed.

Lemma iterate_quiet {E : Externals} (message : value) (sender : option WebSocket)
    (fuel i : nat) (dead : list WebSocket) (st : state E) :
  List.length (active st) - i < fuel ->
  exists st' dead',
    walk (skipn i (active st)) message sender dead st = (st', Ok dead') /\
    iterate fuel i [] message sender dead st = Some (st', dead').
Proof.
  revert i dead st.
  induction fuel as [|fuel IH]; intros i dead st Hfuel; [lia|].
  cbn [iterate]. destruct (nth_error (active st) i) as [c|] eqn:Hnth.
  - rewrite (skipn_nth_some _ _ _ Hnth). cbn [walk].
    assert (Hlt : i < List.length (active st))
      by (apply nth_error_Some; congruence).
    destruct (is_sender sender c).
    + apply IH. lia.
    + unfold bind at 1, try_except, bind, send_text, ret.
      destruct (ws_send_text c message (world st)) as [w [[]|e]];
        cbn beta iota delta [resume hd tl fold_left world active trace log].
      * apply (IH (S i) dead (log st w (EvSend c message true))). simpl. lia.
      * apply (IH (S i) (dead ++ [c]) (log st w (EvSend c message false))).
        simpl. lia.
  - rewrite (skipn_nth_none _ _ Hnth). simpl. exists st, dead. now split.
Qed.

(** With no other task running, [broadcast_among] is [broadcast]. *)
Lemma broadcast_among_quiet {E : Externals} (message : value)
    (sender : option WebSocket) (fuel : nat) (st : state E) :
  List.length (active st) < fuel ->
  broadcast_among fuel [] message sender st = Some (broadcast message sender st).
Proof.
  intros Hfuel.
  destruct (iterate_quiet message sender fuel 0 [] st) as (st' & dead' & Hw & Hi);
    [lia|].
  simpl in Hw. unfold broadcast_among, broadcast, bind. now rewrite Hi, Hw.
Qed.

(** ** Claims on the registry and the fan-out *)

(** A broadcast during which no other task touches the registry, whatever
    the outcomes of the individual sends: the call returns normally; the send
    attempts are, in order, the registry entries other than the sender, each
    with the message of the call, so a failed send by itself never cuts the
    iteration short; and when the registered sessions are distinct, each session
    other than the sender gets exactly one attempt. *)
Theorem broadcast_attempts_every_other_session {E : Externals}
    (message : value) (sender : option WebSocket) (st : state E) :
  let st' := fst (broadcast message sender st) in
  let evs := events_between st st' in
  snd (broadcast message sender st) = Ok tt /\
  sent_to evs = others sender (active st) /\
  texts_sent evs = map (fun _ => message) (others sender (active st)) /\
  (NoDup (active st) ->
   forall c, In c (active st) -> is_sender sender c = false ->
             count_occ Nat.eq_dec (sent_to evs) c = 1).
Proof.
  destruct (broadcast_spec message sender st)
    as (w & evs & Hb & Hto & Htx & _ & _).
  simpl. rewrite Hb. simpl.
  rewrite (events_between_app st _ evs) by reflexivity.
  repeat split; try assumption.
  intros Hnd c Hin Hs. rewrite Hto, count_others, Hs.
  pose proof (NoDup_count_le _ c Hnd).
  apply (count_occ_In Nat.eq_dec) in Hin. lia.
Qed.

Lemma broadcast_attempts_every_other_session_witness :
  let E := scripted [2] true in
  let st := @mkState E [] [1; 2; 3] [] in
  count_occ Nat.eq_dec
    (sent_to (events_between st (fst (broadcast (VStr "m") (Some 1) st)))) 3 = 1.
Proof.
  intros E st.
  destruct (broadcast_attempts_every_other_session (VStr "m") (Some 1) st)
    as (_ & _ & _ & H).
  apply H.
  - repeat (constructor; [simpl; intuition congruence|]). constructor.
  - simpl. auto.
  - reflexivity.
Defined.

(** C3. For every broadcast: the registry afterwards has, for each session,
    as many entries as before less its failed send attempts; it is the same
    list when no send failed; when the registered sessions are distinct it is
    the list before without the sessions whose send failed, so membership
    after is membership before minus exactly those; and the first loop ends
    with the registry untouched, the removals being run afterwards from the
    collected list. *)
Theorem broadcast_removes_exactly_failed {E : Externals}
    (message : value) (sender : option WebSocket) (st : state E) :
  let st' := fst (broadcast message sender st) in
  let failed := failed_to (events_between st st') in
  (forall c, count_occ Nat.eq_dec (active st') c =
             count_occ Nat.eq_dec (active st) c - count_occ Nat.eq_dec failed c) /\
  (failed = [] -> active st' = active st) /\
  (NoDup (active st) ->
   active st' = filter (fun c => negb (list_in c failed)) (active st) /\
   forall c, In c (active st') <-> In c (active st) /\ ~ In c failed) /\
  (exists st1,
     walk (active st) message sender [] st = (st1, Ok failed) /\
     active st1 = active st /\
     broadcast message sender st = sweep failed st1).
Proof.
  destruct (broadcast_spec message sender st)
    as (w & evs & Hb & Hto & Htx & _ & st1 & Hw & Ha).
  assert (Hsw : broadcast message sender st = sweep (failed_to evs) st1)
    by (unfold broadcast, bind; now rewrite Hw).
  simpl. rewrite Hb. simpl.
  rewrite (events_between_app st _ evs) by reflexivity.
  split; [|split; [|split]].
  - intros c. apply count_drop_all.
  - intros ->. reflexivity.
  - intros Hnd. rewrite (drop_all_filter _ _ Hnd). split; [reflexivity|].
    intros c. rewrite filter_In, negb_true_iff, list_in_false. tauto.
  - exists st1. repeat split; try assumption. now rewrite <- Hsw.
Qed.

Lemma broadcast_removes_exactly_failed_witness :
  let E := scripted [2] true in
  let st := @mkState E [] [1; 2; 3] [] in
  let st' := fst (broadcast (VStr "m") None st) in
  active st' =
    filter (fun c => negb (list_in c (failed_to (events_between st st'))))
           (active st) /\
  active st' = [1; 3].
Proof.
  intros E st st'.
  destruct (broadcast_removes_exactly_failed (VStr "m") None st)
    as (_ & _ & H & _).
  split; [|reflexivity].
  apply H.
  repeat (constructor; [simpl; intuition congruence|]). constructor.
Defined.

(** C4. For every broadcast with a sender, no send of that call targets the
    sender, whether or not (and however often) it is in the registry. *)
Theorem broadcast_never_sends_to_sender {E : Externals}
    (message : value) (s : WebSocket) (st : state E) :
  ~ In s (sent_to (events_between st (fst (broadcast message (Some s) st)))).
Proof.
  destruct (broadcast_spec message (Some s) st)
    as (w & evs & Hb & Hto & _).
  rewrite Hb. simpl.
  rewrite (events_between_app st _ evs) by reflexivity.
  rewrite Hto. unfold others. rewrite filter_In. simpl.
  rewrite Nat.eqb_refl. intros [_ H]. discriminate.
Qed.

Lemma drop_first_twice (s : WebSocket) (l : list WebSocket) :
  count_occ Nat.eq_dec l s <= 1 ->
  drop_first s (drop_first s l) = drop_first s l.
Proof.
  intros Hc. apply drop_first_absent, list_in_false.
  apply (count_occ_not_In Nat.eq_dec).
  rewrite count_drop_first, Nat.eqb_refl. lia.
Qed.

Lemma length_without (removed l : list WebSocket) :
  NoDup l ->
  List.length l - List.length (nodup Nat.eq_dec removed) <=
  List.length (filter (fun c => negb (list_in c removed)) l).
Proof.
  intros Hnd.
  pose proof (filter_length (fun c => negb (list_in c removed)) l) as Hsplit.
  assert (Hle : List.length
                  (filter (fun c => negb (negb (list_in c removed))) l)
                <= List.length (nodup Nat.eq_dec removed)).
  { apply NoDup_incl_length; [now apply NoDup_filter|].
    intros c Hc. apply filter_In in Hc. destruct Hc as [_ Hc].
    rewrite negb_involutive in Hc. apply nodup_In. now apply list_in_In. }
  lia.
Qed.

(** C8. For every registry state, which holds each session at most once, and
    every session [s]: [disconnect s] never raises and does no input or output;
    it takes out the entry of [s] and leaves every other entry in place; when
    [s] is absent the state is left as it is; a second [disconnect s] changes
    nothing more; the registry gets shorter by one if [s] was registered and by
    nothing otherwise; and however often sessions are removed in a row, the
    registry loses at most one entry per distinct session removed. *)
Theorem disconnect_is_idempotent {E : Externals}
    (s : WebSocket) (st : state E) :
  NoDup (active st) ->
  let st1 := fst (disconnect s st) in
  snd (disconnect s st) = Ok tt /\
  world st1 = world st /\ trace st1 = trace st /\
  active st1 = drop_first s (active st) /\
  active st1 = filter (fun c => negb (Nat.eqb c s)) (active st) /\
  (~ In s (active st) -> st1 = st) /\
  disconnect s st1 = (st1, Ok tt) /\
  List.length (active st1) =
    List.length (active st) - (if list_in s (active st) then 1 else 0) /\
  (forall removed,
     List.length (active st) - List.length (nodup Nat.eq_dec removed) <=
     List.length (active (fst (sweep removed st)))).
Proof.
  intros Hnd st1. subst st1.
  pose proof (NoDup_count_le _ s Hnd) as Hc.
  rewrite !disconnect_eq. simpl.
  repeat split.
  - now apply drop_first_filter.
  - intros Hin. apply list_in_false in Hin.
    rewrite (drop_first_absent _ _ Hin). now destruct st.
  - now rewrite drop_first_twice.
  - rewrite length_drop_first. destruct (list_in s (active st)); lia.
  - intros removed. rewrite sweep_spec. simpl.
    rewrite drop_all_filter by assumption. now apply length_without.
Qed.

Lemma disconnect_is_idempotent_witness :
  let E := scripted [] true in
  let st := @mkState E [] [4; 5; 6] [] in
  disconnect 5 (fst (disconnect 5 st)) = (fst (disconnect 5 st), Ok tt) /\
  fst (disconnect 9 st) = st /\
  active (fst (disconnect 5 st)) = [4; 6] /\
  2 <= List.length (active (fst (sweep [5; 5] st))).
Proof.
  intros E st.
  assert (Hnd : NoDup (active st))
    by (repeat (constructor; [simpl; intuition congruence|]); constructor).
  destruct (disconnect_is_idempotent 5 st Hnd)
    as (_ & _ & _ & _ & Hf & _ & Htwice & _ & Hsw).
  destruct (disconnect_is_idempotent 9 st Hnd) as (_ & _ & _ & _ & _ & H9 & _).
  split; [exact Htwice|]. split; [apply H9; simpl; intuition lia|].
  split; [rewrite Hf; reflexivity|].
  exact (Hsw [5; 5]).
Defined.

(** C10, as the claim has it, fails for a socket that can be accepted only
    once: the second [connect] raises in [accept], before the append, and the
    registry holds one entry for the session, not two. *)
Lemma second_connect_leaves_one_entry :
  let E := once_only in
  let st := @mkState E ([], []) [] [] in
  let st1 := fst (connect 5 st) in
  snd (connect 5 st) = Ok tt /\
  snd (connect 5 st1) = Raise RuntimeError /\
  active (fst (connect 5 st1)) = [5] /\
  count_occ Nat.eq_dec (active (fst (connect 5 st1))) 5 <> 2.
Proof.
  simpl. repeat split. discriminate.
Qed.

(** C10, amended. [connect] makes no membership check: a call whose
    [accept] succeeds appends one entry for the session, whatever the registry
    holds.  A second call for the same session, whose [accept] raises, raises
    the same exception before the append and leaves the registry as the first
    call left it: one more entry for the session than before, not two.  A
    broadcast from any other sender then makes one send attempt to the session
    per entry, and one [disconnect] takes one entry away. *)
Theorem second_connect_registers_nothing {E : Externals}
    (s sender : WebSocket) (message : value) (st st1 : state E)
    (w2 : World) (e : exn) :
  connect s st = (st1, Ok tt) ->
  ws_accept s (world st1) = (w2, Raise e) ->
  sender <> s ->
  let n := count_occ Nat.eq_dec (active st) s in
  let st2 := fst (connect s st1) in
  active st1 = active st ++ [s] /\
  snd (connect s st1) = Raise e /\
  active st2 = active st ++ [s] /\
  count_occ Nat.eq_dec (active st2) s = n + 1 /\
  count_occ Nat.eq_dec
    (sent_to (events_between st2 (fst (broadcast message (Some sender) st2)))) s
    = n + 1 /\
  count_occ Nat.eq_dec (active (fst (disconnect s st2))) s = n.
Proof.
  intros H1 H2 Hne n st2.
  apply connect_inv in H1. destruct H1 as [Ha1 _].
  assert (Hc2 : connect s st1 =
                (mkState w2 (active st1) (trace st1 ++ [EvAccept s false]),
                 Raise e)).
  { unfold connect, bind, accept. rewrite H2. reflexivity. }
  assert (Ha : active st2 = active st ++ [s]).
  { subst st2. rewrite Hc2. simpl. exact Ha1. }
  assert (Hc : count_occ Nat.eq_dec (active st2) s = n + 1).
  { rewrite Ha, count_occ_app. cbn [count_occ].
    destruct (Nat.eq_dec s s); [reflexivity | contradiction]. }
  split; [exact Ha1|]. split; [now rewrite Hc2|].
  split; [exact Ha|]. split; [exact Hc|]. split.
  - destruct (broadcast_spec message (Some sender) st2)
      as (w & evs & Hb & Hto & _).
    rewrite Hb. simpl.
    rewrite (events_between_app st2 _ evs) by reflexivity.
    rewrite Hto, count_others. simpl.
    apply Nat.eqb_neq in Hne. rewrite Nat.eqb_sym, Hne. exact Hc.
  - rewrite disconnect_eq. simpl.
    rewrite count_drop_first, Nat.eqb_refl, Hc. lia.
Qed.

Lemma second_connect_registers_nothing_witness :
  let E := once_only in
  let st := @mkState E ([], []) [1] [] in
  let st2 := fst (connect 2 (fst (connect 2 st))) in
  snd (connect 2 (fst (connect 2 st))) = Raise RuntimeError /\
  active st2 = [1; 2] /\
  count_occ Nat.eq_dec
    (sent_to (events_between st2 (fst (broadcast (VStr "m") (Some 1) st2)))) 2
    = 1 /\
  count_occ Nat.eq_dec (active (fst (disconnect 2 st2))) 2 = 0.
Proof.
  intros E st st2.
  destruct (second_connect_registers_nothing (E := E) 2 1 (VStr "m") st
              (fst (connect 2 st)) ([2], []) RuntimeError)
    as (_ & Hr & Ha & _ & Hs & Hd);
    [reflexivity | reflexivity | lia |].
  split; [exact Hr|]. split; [exact Ha|]. split; [exact Hs | exact Hd].
Defined.

(** C9, at an interleaving the event loop allows.  Sessions 1, 2 and 3 are
    registered besides the sender 0.  While the broadcast is suspended in its
    send to 1, the handler of 1 sees its peer leave and runs
    [disconnect 1]; the list shifts left under the iterator's index, and
    session 2, registered before and after, gets no send attempt. *)
Theorem broadcast_among_skips_live_session :
  let E := scripted [] true in
  let st := @mkState E [] [0; 1; 2; 3] [] in
  exists st',
    broadcast_among 5 [[OpDisconnect 1]] (VStr "m") (Some 0) st
      = Some (st', Ok tt) /\
    sent_to (trace st') = [1; 3] /\
    active st' = [0; 2; 3] /\
    In 2 (active st) /\ In 2 (active st') /\ ~ In 2 (sent_to (trace st')).
Proof.
  eexists. split; [reflexivity|]. simpl.
  repeat split; try tauto. intuition congruence.
Qed.

(** C2, at the same kind of interleaving with a delivery that fails.  The
    peer of session 1 is gone: the send to 1 raises, and while the broadcast
    is suspended in it the handler of 1 runs [disconnect 1].  The failure is
    caught and the loop goes on, but on the shifted list: session 2, registered
    throughout and not the sender, gets no send attempt. *)
Theorem failed_delivery_skips_next_session :
  let E := scripted [1] true in
  let st := @mkState E [] [0; 1; 2; 3] [] in
  exists st',
    broadcast_among 5 [[OpDisconnect 1]] (VStr "m") (Some 0) st
      = Some (st', Ok tt) /\
    trace st' = [EvSend 1 (VStr "m") false; EvSend 3 (VStr "m") true] /\
    active st' = [0; 2; 3] /\
    In 2 (active st) /\ In 2 (active st') /\
    is_sender (Some 0) 2 = false /\
    ~ In 2 (sent_to (trace st')).
Proof.
  eexists. split; [reflexivity|]. simpl.
  repeat split; try tauto. intuition congruence.
Qed.

(** ** The session handler *)

Section HandlerFacts.
Context {E : Externals}.

(** *** What a coroutine does to the registry *)

Section Keeps.
Variable R : list WebSocket -> list WebSocket -> Prop.
Hypothesis R_refl : forall a, R a a.
Hypothesis R_trans : forall a b c, R a b -> R b c -> R a c.

Lemma keeps_ret {A} (a : A) : keeps R (ret a).
Proof. intros st. apply R_refl. Qed.

Lemma keeps_raise {A} (e : exn) : keeps R (@raise E A e).
Proof. intros st. apply R_refl. Qed.

Lemma keeps_lift {A} (r : result A) : keeps R (@lift E A r).
Proof. intros st. apply R_refl. Qed.

Lemma keeps_bind {A B} (m : M E A) (f : A -> M E B) :
  keeps R m -> (forall a, keeps R (f a)) -> keeps R (bind m f).
Proof.
  intros Hm Hf st. unfold bind. specialize (Hm st).
  destruct (m st) as [st1 [a|e]]; simpl in *; [|exact Hm].
  exact (R_trans _ _ _ Hm (Hf a st1)).
Qed.

Lemma keeps_try_except {A} (m h : M E A) :
  keeps R m -> keeps R h -> keeps R (try_except m h).
Proof.
  intros Hm Hh st. unfold try_except. specialize (Hm st).
  destruct (m st) as [st1 [a|e]]; simpl in *; [exact Hm|].
  exact (R_trans _ _ _ Hm (Hh st1)).
Qed.

Lemma keeps_accept (ws : WebSocket) : keeps R (accept ws).
Proof.
  intros st. unfold accept. destruct (ws_accept ws (world st)). apply R_refl.
Qed.

Lemma keeps_send_text (ws : WebSocket) (text : value) : keeps R (send_text ws text).
Proof.
  intros st. unfold send_text. destruct (ws_send_text ws text (world st)).
  apply R_refl.
Qed.

Lemma keeps_receive_text (ws : WebSocket) : keeps R (receive_text ws).
Proof.
  intros st. unfold receive_text. destruct (ws_receive_text ws (world st)).
  apply R_refl.
Qed.

Lemma keeps_persist (c : string) (doc : value) : keeps R (persist c doc).
Proof.
  intros st. unfold persist. destruct (create_document c doc (world st)).
  apply R_refl.
Qed.

Lemma keeps_query (c : string) (f : value) (n : nat) : keeps R (query c f n).
Proof.
  intros st. unfold query. destruct (get_documents c f n (world st)).
  apply R_refl.
Qed.

Lemma keeps_list_strokes (limit : nat) : keeps R (list_strokes limit).
Proof.
  unfold list_strokes. destruct db_is_none; [apply keeps_ret|].
  apply keeps_bind; [apply keeps_query | intros; apply keeps_ret].
Qed.

Lemma keeps_send_init (ws : WebSocket) : keeps R (send_init ws).
Proof.
  unfold send_init, fetch_initial.
  apply keeps_bind.
  - apply keeps_try_except; [|apply keeps_ret].
    apply keeps_bind; [apply keeps_list_strokes | intros; apply keeps_lift].
  - intros initial. apply keeps_bind; [apply keeps_lift|].
    intros text. apply keeps_send_text.
Qed.

(** The loop body changes the registry only through [broadcast] with the
    connection itself as sender. *)
Lemma keeps_loop_body (ws : WebSocket) :
  (forall text, keeps R (broadcast text (Some ws))) -> keeps R (loop_body ws).
Proof.
  intros Hb. unfold loop_body.
  apply keeps_bind; [apply keeps_receive_text|]. intros data.
  destruct (json_loads data) as [payload|]; [|apply keeps_ret].
  apply keeps_bind; [apply keeps_lift|]. intros ty.
  destruct (eq_str ty "stroke"); [|apply keeps_ret].
  destruct (match py_get payload "stroke" (VDict []) with
            | Ok obj => StrokeModel_unpack obj
            | Raise e => Raise e
            end) as [stroke|]; [|apply keeps_ret].
  apply keeps_bind.
  - apply keeps_try_except; [|apply keeps_ret].
    apply keeps_bind; [apply keeps_persist | intros; apply keeps_ret].
  - intros sid. apply keeps_bind; [apply keeps_lift | intros; apply Hb].
Qed.

End Keeps.

Lemma same_count_refl (ws : WebSocket) (a : list WebSocket) : same_count ws a a.
Proof. reflexivity. Qed.

Lemma same_count_trans (ws : WebSocket) (a b c : list WebSocket) :
  same_count ws a b -> same_count ws b c -> same_count ws a c.
Proof. unfold same_count. congruence. Qed.

(** A broadcast never removes its sender: the sender gets no send, so it
    cannot be among the failed. *)
Lemma broadcast_keeps_sender (ws : WebSocket) (text : value) :
  keeps (same_count ws) (broadcast text (Some ws)).
Proof.
  intros st. unfold same_count.
  destruct (broadcast_spec text (Some ws) st) as (w & evs & Hb & Hto & _).
  rewrite Hb. simpl. rewrite count_drop_all.
  assert (Hz : count_occ Nat.eq_dec (failed_to evs) ws = 0).
  { apply (count_occ_not_In Nat.eq_dec). intros Hin.
    apply failed_incl_sent in Hin. rewrite Hto in Hin.
    unfold others in Hin. apply filter_In in Hin. simpl in Hin.
    rewrite Nat.eqb_refl in Hin. destruct Hin; discriminate. }
  lia.
Qed.

Lemma loop_body_keeps_sender (ws : WebSocket) :
  keeps (same_count ws) (loop_body ws).
Proof.
  apply keeps_loop_body.
  - apply same_count_refl.
  - apply same_count_trans.
  - apply broadcast_keeps_sender.
Qed.

Lemma receive_loop_keeps_sender (ws : WebSocket) (fuel : nat)
    (st st' : state E) (e : exn) :
  receive_loop fuel ws st = Some (st', e) ->
  same_count ws (active st) (active st').
Proof.
  revert st. induction fuel as [|fuel IH]; intros st; simpl; [discriminate|].
  pose proof (loop_body_keeps_sender ws st) as Hk.
  destruct (loop_body ws st) as [st1 [[]|e1]]; simpl in Hk.
  - intros H. apply IH in H. eapply same_count_trans; eassumption.
  - intros [= <- <-]. exact Hk.
Qed.

End HandlerFacts.

Section HandlerSteps.
Context {E : Externals}.

(** *** Messages *)

Lemma serialisable_points (pts : list (list Q)) :
  forallb serialisable (map (fun row => VList (map VNum row)) pts) = true.
Proof.
  induction pts as [|row pts IH]; simpl; [reflexivity|].
  rewrite IH, andb_true_r.
  induction row as [|q row IHr]; simpl; [reflexivity | exact IHr].
Qed.

Lemma stroke_envelope_fields (stroke : StrokeModel) (sid : value) :
  stroke_envelope stroke sid =
  VDict [("type", VStr "stroke");
         ("stroke",
          VDict [("points", VList (map (fun row => VList (map VNum row))
                                       (points stroke)));
                 ("color", VStr (color stroke));
                 ("size", VNum (size stroke));
                 ("user", match user stroke with
                          | Some u => VStr u
                          | None => VNone
                          end);
                 ("id", sid)])].
Proof. reflexivity. Qed.

Lemma dumps_stroke_envelope (stroke : StrokeModel) (sid : value) :
  serialisable sid = true ->
  json_dumps (stroke_envelope stroke sid) = Ok (stroke_envelope stroke sid).
Proof.
  intros Hsid. unfold json_dumps.
  rewrite stroke_envelope_fields. cbn [serialisable forallb snd].
  rewrite serialisable_points, Hsid.
  now destruct (user stroke).
Qed.

(** *** One pass of the receive loop, case by case *)

Lemma loop_body_receive_fails (ws : WebSocket) (st : state E) (w1 : World) (e : exn) :
  ws_receive_text ws (world st) = (w1, Raise e) ->
  loop_body ws st = (log st w1 (EvReceive ws false), Raise e).
Proof.
  intros H. unfold loop_body, bind, receive_text. now rewrite H.
Qed.

(** Text that [json.loads] rejects is dropped. *)
Lemma loop_body_discards_unparseable (ws : WebSocket) (st : state E)
    (w1 : World) (data : string) (e : exn) :
  ws_receive_text ws (world st) = (w1, Ok data) ->
  json_loads data = Raise e ->
  loop_body ws st = (log st w1 (EvReceive ws true), Ok tt).
Proof.
  intros H Hl. unfold loop_body, bind, receive_text. rewrite H. simpl.
  now rewrite Hl.
Qed.

(** An object whose ["type"] is missing or is not ["stroke"] is dropped. *)
Lemma loop_body_discards_other_type (ws : WebSocket) (st : state E)
    (w1 : World) (data : string) (d : dict) :
  ws_receive_text ws (world st) = (w1, Ok data) ->
  json_loads data = Ok (VDict d) ->
  eq_str (match dict_get "type" d with Some v => v | None => VNone end)
         "stroke" = false ->
  loop_body ws st = (log st w1 (EvReceive ws true), Ok tt).
Proof.
  intros H Hl Ht. unfold loop_body, bind, receive_text. rewrite H. simpl.
  rewrite Hl. unfold lift. simpl. now rewrite Ht.
Qed.

(** A stroke message whose payload the schema rejects is dropped. *)
Lemma loop_body_discards_invalid_stroke (ws : WebSocket) (st : state E)
    (w1 : World) (data : string) (d : dict) (e : exn) :
  ws_receive_text ws (world st) = (w1, Ok data) ->
  json_loads data = Ok (VDict d) ->
  dict_get "type" d = Some (VStr "stroke") ->
  StrokeModel_unpack
    (match dict_get "stroke" d with Some v => v | None => VDict [] end)
    = Raise e ->
  loop_body ws st = (log st w1 (EvReceive ws true), Ok tt).
Proof.
  intros H Hl Ht Hv. unfold loop_body, bind, receive_text. rewrite H. simpl.
  rewrite Hl. unfold lift. simpl. rewrite Ht. simpl. now rewrite Hv.
Qed.

(** The schema rejects every payload whose [size] validates to a number
    outside [1, 100]. *)
Lemma size_out_of_range_rejected (kwargs : dict) (v : value) (q : Q) :
  dict_get "size" kwargs = Some v ->
  float_validator v = Some q ->
  (q < 1 # 1 \/ 100 # 1 < q)%Q ->
  StrokeModel_init kwargs = Raise ValidationError.
Proof.
  intros Hs Hf Hq. unfold StrokeModel_init.
  destruct (dict_get "points" kwargs) as [pv|]; [|reflexivity].
  assert (Hsz : validate_size (dict_get "size" kwargs) = None).
  { rewrite Hs. unfold validate_size. rewrite Hf.
    destruct (Qle_bool (1 # 1) q) eqn:H1; [|reflexivity].
    destruct (Qle_bool q (100 # 1)) eqn:H2; [|reflexivity].
    apply Qle_bool_iff in H1, H2.
    destruct Hq as [Hq|Hq]; apply Qlt_not_le in Hq; contradiction. }
  rewrite Hsz.
  destruct (validate_points pv); [|reflexivity].
  destruct (validate_color (dict_get "color" kwargs)); reflexivity.
Qed.

(** Parsed text that is not an object makes [payload.get] raise, outside
    every [try] of the loop: the pass ends in [AttributeError]. *)
Lemma loop_body_non_object_raises (ws : WebSocket) (st : state E)
    (w1 : World) (data : string) (payload : value) :
  ws_receive_text ws (world st) = (w1, Ok data) ->
  json_loads data = Ok payload ->
  (forall d, payload <> VDict d) ->
  loop_body ws st = (log st w1 (EvReceive ws true), Raise AttributeError).
Proof.
  intros H Hl Hd. unfold loop_body, bind, receive_text. rewrite H. simpl.
  rewrite Hl. unfold lift.
  destruct payload; try reflexivity. now destruct (Hd entries).
Qed.

(** *** The endpoint as a whole *)

Lemma not_in_count_zero (ws : WebSocket) (l : list WebSocket) :
  ~ In ws l <-> count_occ Nat.eq_dec l ws = 0.
Proof. apply (count_occ_not_In Nat.eq_dec). Qed.

Lemma on_exception_spec (ws : WebSocket) (e : exn) (st : state E) :
  on_exception ws e st =
  if is_disconnect e
  then (mkState (world st) (drop_first ws (active st)) (trace st), Ok tt)
  else (st, Raise e).
Proof.
  unfold on_exception. destruct (is_disconnect e); [apply disconnect_eq|].
  reflexivity.
Qed.

(** The registry entry of the connection at the moment an exception reaches
    the outer [try]. *)
Lemma endpoint_reaches_handler (fuel : nat) (ws : WebSocket)
    (st st' : state E) (r : result unit) :
  snd (connect ws st) = Ok tt ->
  websocket_endpoint fuel ws st = Some (st', r) ->
  exists st2 e,
    (st', r) = on_exception ws e st2 /\
    count_occ Nat.eq_dec (active st2) ws =
    S (count_occ Nat.eq_dec (active st) ws).
Proof.
  unfold websocket_endpoint. intros Hc.
  destruct (connect ws st) as [st1 [[]|e0]] eqn:Hconn; [|discriminate].
  apply connect_inv in Hconn. destruct Hconn as [Ha _].
  assert (H1 : count_occ Nat.eq_dec (active st1) ws =
               S (count_occ Nat.eq_dec (active st) ws)).
  { rewrite Ha, count_occ_app. cbn [count_occ].
    destruct (Nat.eq_dec ws ws); [|contradiction].
    unfold WebSocket in *. lia. }
  pose proof (keeps_send_init (same_count ws) (same_count_refl ws)
                (same_count_trans ws) ws st1) as Hk.
  unfold same_count in Hk.
  destruct (send_init ws st1) as [st2 [[]|e]]; simpl in Hk.
  - destruct (receive_loop fuel ws st2) as [[st3 e]|] eqn:Hloop; [|discriminate].
    apply receive_loop_keeps_sender in Hloop. unfold same_count in Hloop.
    intros [= H]. exists st3, e. split; [now rewrite H | congruence].
  - intros [= H]. exists st2, e. split; [now rewrite H | congruence].
Qed.

(** When the connection ends with [WebSocketDisconnect], raised by the
    receive or by the send of the snapshot, the handler returns normally and
    the session, registered once, is out of the registry. *)
Lemma endpoint_disconnect_cleans_up (fuel : nat) (ws : WebSocket)
    (st st' : state E) :
  ~ In ws (active st) ->
  websocket_endpoint fuel ws st = Some (st', Ok tt) ->
  ~ In ws (active st').
Proof.
  intros Hnin Hrun.
  assert (Hc : snd (connect ws st) = Ok tt).
  { unfold websocket_endpoint in Hrun.
    destruct (connect ws st) as [st1 [[]|e0]]; [reflexivity | discriminate]. }
  destruct (endpoint_reaches_handler fuel ws st st' (Ok tt) Hc Hrun)
    as (st2 & e & Hh & Hcount).
  rewrite on_exception_spec in Hh.
  destruct (is_disconnect e); [|discriminate].
  injection Hh as ->. simpl.
  apply not_in_count_zero. rewrite count_drop_first, Nat.eqb_refl, Hcount.
  apply not_in_count_zero in Hnin. lia.
Qed.

(** When it ends with any other exception, the exception leaves the
    coroutine and the session stays registered. *)
Lemma endpoint_other_exception_leaks (fuel : nat) (ws : WebSocket)
    (st st' : state E) (e : exn) :
  snd (connect ws st) = Ok tt ->
  websocket_endpoint fuel ws st = Some (st', Raise e) ->
  e <> WebSocketDisconnect /\ In ws (active st').
Proof.
  intros Hc Hrun.
  destruct (endpoint_reaches_handler fuel ws st st' (Raise e) Hc Hrun)
    as (st2 & e2 & Hh & Hcount).
  rewrite on_exception_spec in Hh.
  destruct (is_disconnect e2) eqn:Hd; [discriminate|].
  injection Hh as -> ->. split.
  - intros ->. discriminate.
  - apply (count_occ_In Nat.eq_dec). lia.
Qed.

End HandlerSteps.

(** ** Claims on the session handler *)

(** C1. For every inbound frame that parses to an object of type ["stroke"]
    whose payload the schema accepts: if the store raises on the write, the
    pass goes on to [broadcast] with the envelope
    [{type: stroke, stroke: {points, color, size, user, id: None}}] and the
    receiving connection as sender; the envelope is attempted on every other
    registry entry and on none for the sender; the pass ends normally, so the
    loop goes on to its next receive. *)
Theorem valid_stroke_is_broadcast_when_store_fails {E : Externals}
    (ws : WebSocket) (st : state E) (w1 w2 : World) (data : string) (d : dict)
    (stroke : StrokeModel) (e : exn) :
  ws_receive_text ws (world st) = (w1, Ok data) ->
  json_loads data = Ok (VDict d) ->
  dict_get "type" d = Some (VStr "stroke") ->
  StrokeModel_unpack
    (match dict_get "stroke" d with Some v => v | None => VDict [] end)
    = Ok stroke ->
  create_document "stroke" (VDict (model_dump stroke)) w1 = (w2, Raise e) ->
  let envelope :=
    VDict [("type", VStr "stroke");
           ("stroke",
            VDict [("points", VList (map (fun row => VList (map VNum row))
                                         (points stroke)));
                   ("color", VStr (color stroke));
                   ("size", VNum (size stroke));
                   ("user", match user stroke with
                            | Some u => VStr u
                            | None => VNone
                            end);
                   ("id", VNone)])] in
  let st2 := log (log st w1 (EvReceive ws true)) w2
                 (EvPersist "stroke" (VDict (model_dump stroke)) false) in
  loop_body ws st = broadcast envelope (Some ws) st2 /\
  snd (loop_body ws st) = Ok tt /\
  sent_to (events_between st2 (fst (loop_body ws st)))
    = others (Some ws) (active st) /\
  texts_sent (events_between st2 (fst (loop_body ws st)))
    = map (fun _ => envelope) (others (Some ws) (active st)) /\
  (forall fuel,
     receive_loop (S fuel) ws st = receive_loop fuel ws (fst (loop_body ws st))).
Proof.
  intros Hrecv Hload Hty Hvalid Hstore envelope st2.
  assert (Hstep : loop_body ws st = broadcast envelope (Some ws) st2).
  { unfold loop_body, bind at 1, receive_text. rewrite Hrecv. simpl.
    rewrite Hload. unfold bind at 1, lift. simpl. rewrite Hty. simpl.
    rewrite Hvalid.
    unfold bind at 1, try_except, bind at 1, persist. simpl.
    rewrite Hstore. unfold ret, bind at 1, lift.
    rewrite (dumps_stroke_envelope stroke VNone eq_refl).
    reflexivity. }
  destruct (broadcast_spec envelope (Some ws) st2)
    as (w & evs & Hb & Hto & Htx & _).
  assert (Hev : events_between st2 (fst (loop_body ws st)) = evs).
  { rewrite Hstep, Hb. now apply events_between_app. }
  split; [exact Hstep|]. split; [now rewrite Hstep, Hb|].
  split; [now rewrite Hev, Hto|]. split; [now rewrite Hev, Htx|].
  intros fuel. cbn [receive_loop]. rewrite Hstep, Hb. reflexivity.
Qed.

Lemma valid_stroke_is_broadcast_when_store_fails_witness :
  let E := scripted [] false in
  let st := @mkState E [Ok frame_stroke_ok; Ok frame_ping] [1; 2; 7] [] in
  snd (loop_body 7 st) = Ok tt /\
  sent_to (trace (fst (loop_body 7 st))) = [1; 2] /\
  world (fst (loop_body 7 st)) = [Ok frame_ping].
Proof.
  intros E st.
  destruct (valid_stroke_is_broadcast_when_store_fails (E := E) 7 st
              [Ok frame_ping] [Ok frame_ping] frame_stroke_ok
              [("type", VStr "stroke");
               ("stroke", VDict [("points", sample_points);
                                 ("color", VStr "#ff0055");
                                 ("size", VNum (8 # 1))])]
              (mkStroke [[(0 # 1)%Q; (0 # 1)%Q]; [(1 # 1)%Q; (1 # 1)%Q]]
                        "#ff0055" (8 # 1)%Q None)
              StoreError)
    as (_ & H & _); try reflexivity.
  split; [exact H|]. split; reflexivity.
Defined.

(** The three kinds of input the loop guards against, one after the other:
    text that does not parse, a message of another type and a stroke of size
    500 are read and dropped; nothing is persisted, nothing is sent, the
    registry is as before and the next frame is still waiting to be read. *)
Example bad_frames_are_dropped :
  let E := scripted [] true in
  let st := @mkState E [Ok frame_garbage; Ok frame_ping; Ok frame_stroke_big;
                        Ok frame_stroke_ok] [1; 7] [] in
  loop_body 7 st = (@mkState E [Ok frame_ping; Ok frame_stroke_big;
                                Ok frame_stroke_ok] [1; 7] [EvReceive 7 true],
                    Ok tt) /\
  fst (loop_body 7 (fst (loop_body 7 (fst (loop_body 7 st))))) =
    @mkState E [Ok frame_stroke_ok] [1; 7]
             [EvReceive 7 true; EvReceive 7 true; EvReceive 7 true] /\
  receive_loop 3 7 st = None.
Proof. repeat split. Qed.

(** C7. For every join in which [list_strokes] raises: the snapshot step
    still sends to the joining connection exactly one message, the [init]
    envelope with an empty [strokes] list; its outcome is the outcome of that
    send alone; and with it the endpoint carries on into the receive loop
    exactly as after any other snapshot. *)
Theorem join_sends_empty_snapshot_on_read_failure {E : Externals}
    (ws : WebSocket) (st : state E) (e : exn) :
  snd (list_strokes 1000 st) = Raise e ->
  let st1 := fst (list_strokes 1000 st) in
  let envelope := VDict [("type", VStr "init"); ("strokes", VList [])] in
  send_init ws st = send_text ws envelope st1 /\
  sent_to (events_between st (fst (send_init ws st))) = [ws] /\
  texts_sent (events_between st (fst (send_init ws st))) = [envelope] /\
  active (fst (send_init ws st)) = active st /\
  (forall fuel st0,
     connect ws st0 = (st, Ok tt) ->
     websocket_endpoint fuel ws st0 =
     match send_text ws envelope st1 with
     | (st2, Raise e') => Some (on_exception ws e' st2)
     | (st2, Ok _) =>
         match receive_loop fuel ws st2 with
         | None => None
         | Some (st3, e') => Some (on_exception ws e' st3)
         end
     end).
Proof.
  intros Hfail st1 envelope.
  assert (Hst1 : exists w, list_strokes 1000 st =
                           (log st w (EvQuery "stroke" 1000 false), Raise e)).
  { revert Hfail. unfold list_strokes.
    destruct db_is_none; [discriminate|].
    unfold bind, query.
    destruct (get_documents "stroke" (VDict []) 1000 (world st)) as [w [docs|e']];
      simpl; [discriminate|].
    intros [= ->]. now exists w. }
  destruct Hst1 as [w Hls].
  assert (Hinit : send_init ws st = send_text ws envelope st1).
  { unfold send_init, fetch_initial, bind at 1, try_except, bind at 1.
    subst st1. rewrite Hls. reflexivity. }
  assert (Htr : trace (fst (send_init ws st)) =
                trace st ++ [EvQuery "stroke" 1000 false;
                             EvSend ws envelope
                               (is_ok (snd (ws_send_text ws envelope w)))]).
  { rewrite Hinit. subst st1. rewrite Hls. unfold send_text. simpl.
    destruct (ws_send_text ws envelope w). simpl.
    now rewrite <- app_assoc. }
  rewrite (events_between_app _ _ _ Htr).
  split; [exact Hinit|]. split; [reflexivity|]. split; [reflexivity|].
  split.
  - symmetry. apply (keeps_send_init eq); [reflexivity | intros; congruence].
  - intros fuel st0 Hconn. unfold websocket_endpoint.
    rewrite Hconn, Hinit. reflexivity.
Qed.

Lemma join_sends_empty_snapshot_on_read_failure_witness :
  let E := scripted [] false in
  let st := @mkState E [] [1; 7] [EvAccept 7 true] in
  send_init 7 st =
    send_text 7 (VDict [("type", VStr "init"); ("strokes", VList [])])
              (fst (list_strokes 1000 st)) /\
  snd (send_init 7 st) = Ok tt.
Proof.
  intros E st.
  destruct (join_sends_empty_snapshot_on_read_failure 7 st StoreError)
    as (H & _); [reflexivity|].
  split; [exact H | reflexivity].
Defined.

(** C5, on a frame that parses but is not an object.  The text [[]] is read
    and decoded; [payload.get] raises [AttributeError], which no [try] of the
    loop catches; the coroutine ends by that exception, the frame queued
    behind it is never read, and the registry still lists the session. *)
Theorem non_object_frame_terminates_session :
  let E := scripted [] true in
  let st := @mkState E [Ok frame_array; Ok frame_stroke_ok] [1] [] in
  exists st',
    websocket_endpoint 5 7 st = Some (st', Raise AttributeError) /\
    world st' = [Ok frame_stroke_ok] /\
    filter is_persist (trace st') = [] /\
    active st' = [1; 7].
Proof.
  eexists. split; [reflexivity|]. repeat split.
Qed.

(** C6, on two ways a connection ends other than by [WebSocketDisconnect].
    A binary frame makes [receive_text] raise [KeyError]; a socket that
    rejects the snapshot makes [send_text] raise [RuntimeError].  In both runs
    the exception leaves the coroutine and [disconnect] is not run: the
    session is still in the registry when the handler is gone. *)
Theorem connection_error_leaves_session_registered :
  (let E := scripted [] true in
   let st := @mkState E [Raise KeyError] [1] [] in
   exists st',
     websocket_endpoint 5 7 st = Some (st', Raise KeyError) /\
     active st' = [1; 7]) /\
  (let E := scripted [7] true in
   let st := @mkState E [] [1] [] in
   exists st',
     websocket_endpoint 5 7 st = Some (st', Raise RuntimeError) /\
     active st' = [1; 7]).
Proof.
  split; eexists; (split; [reflexivity|]); reflexivity.
Qed.

(** * Further properties of the code *)

(** ** Registry *)

Lemma drop_first_last (ws : WebSocket) (l : list WebSocket) :
  ~ In ws l -> drop_first ws (l ++ [ws]) = l.
Proof.
  induction l as [|x l IH]; simpl; intros Hnin.
  - now rewrite Nat.eqb_refl.
  - destruct (Nat.eqb_spec x ws) as [->|Hne]; [tauto|].
    rewrite IH; tauto.
Qed.

Lemma NoDup_drop_first (ws : WebSocket) (l : list WebSocket) :
  NoDup l -> NoDup (drop_first ws l).
Proof.
  intros Hnd. rewrite drop_first_filter by now apply NoDup_count_le.
  now apply NoDup_filter.
Qed.

(** X1. A session that joins and leaves, not having been registered before,
    leaves the registry exactly as it found it. *)
Theorem connect_then_disconnect_restores {E : Externals}
    (ws : WebSocket) (st st1 : state E) :
  connect ws st = (st1, Ok tt) ->
  ~ In ws (active st) ->
  active (fst (disconnect ws st1)) = active st.
Proof.
  intros Hc Hnin. apply connect_inv in Hc. destruct Hc as [Ha _].
  rewrite disconnect_eq. simpl. rewrite Ha. now apply drop_first_last.
Qed.

Lemma connect_then_disconnect_restores_witness :
  let E := scripted [] true in
  let st := @mkState E [] [1; 2] [] in
  active (fst (disconnect 3 (fst (connect 3 st)))) = [1; 2].
Proof.
  intros E st.
  apply (connect_then_disconnect_restores 3 st (fst (connect 3 st))).
  - reflexivity.
  - simpl. intuition lia.
Defined.

(** X2. A registry whose entries are distinct stays so under [disconnect] and
    under [broadcast], and under [connect] of a session that is not in it. *)
Theorem registry_stays_duplicate_free {E : Externals}
    (ws : WebSocket) (message : value) (sender : option WebSocket)
    (st : state E) :
  NoDup (active st) ->
  NoDup (active (fst (disconnect ws st))) /\
  NoDup (active (fst (broadcast message sender st))) /\
  (~ In ws (active st) ->
   forall st1, connect ws st = (st1, Ok tt) -> NoDup (active st1)).
Proof.
  intros Hnd. split; [|split].
  - rewrite disconnect_eq. simpl. now apply NoDup_drop_first.
  - destruct (broadcast_spec message sender st) as (w & evs & Hb & _).
    rewrite Hb. simpl. rewrite drop_all_filter by assumption.
    now apply NoDup_filter.
  - intros Hnin st1 Hc. apply connect_inv in Hc. destruct Hc as [-> _].
    apply NoDup_app; [assumption | repeat constructor; simpl; tauto |].
    intros x Hx [<-|[]]. contradiction.
Qed.

Lemma registry_stays_duplicate_free_witness :
  let E := scripted [2] true in
  let st := @mkState E [] [1; 2; 3] [] in
  NoDup (active (fst (broadcast (VStr "m") (Some 1) st))) /\
  NoDup (active (fst (connect 4 st))).
Proof.
  intros E st.
  assert (Hnd : NoDup (active st))
    by (repeat (constructor; [simpl; intuition congruence|]); constructor).
  destruct (registry_stays_duplicate_free 4 (VStr "m") (Some 1) st Hnd)
    as (_ & Hb & Hc).
  split; [exact Hb|].
  apply Hc; [simpl; intuition lia | reflexivity].
Defined.

(** X3. [disconnect] does no input or output and takes no entry of another
    session away. *)
Theorem disconnect_spares_other_sessions {E : Externals}
    (ws c : WebSocket) (st : state E) :
  c <> ws ->
  count_occ Nat.eq_dec (active (fst (disconnect ws st))) c =
    count_occ Nat.eq_dec (active st) c /\
  world (fst (disconnect ws st)) = world st /\
  trace (fst (disconnect ws st)) = trace st.
Proof.
  intros Hne. rewrite disconnect_eq. simpl. rewrite count_drop_first.
  apply Nat.eqb_neq in Hne. rewrite Hne. auto.
Qed.

Lemma disconnect_spares_other_sessions_witness :
  let E := scripted [] true in
  let st := @mkState E [] [1; 2; 1] [] in
  count_occ Nat.eq_dec (active (fst (disconnect 2 st))) 1 = 2.
Proof.
  intros E st.
  destruct (disconnect_spares_other_sessions 2 1 st) as (H & _); [lia|].
  rewrite H. reflexivity.
Defined.

(** X4. A broadcast never unregisters its own sender, however many deliveries
    fail. *)
Theorem broadcast_never_unregisters_sender {E : Externals}
    (message : value) (s : WebSocket) (st : state E) :
  count_occ Nat.eq_dec (active (fst (broadcast message (Some s) st))) s =
  count_occ Nat.eq_dec (active st) s.
Proof.
  destruct (broadcast_spec message (Some s) st) as (w & evs & Hb & Hto & _).
  rewrite Hb. simpl. rewrite count_drop_all.
  assert (Hz : count_occ Nat.eq_dec (failed_to evs) s = 0).
  { apply (count_occ_not_In Nat.eq_dec). intros Hin.
    apply failed_incl_sent in Hin. rewrite Hto in Hin.
    unfold others in Hin. apply filter_In in Hin. simpl in Hin.
    rewrite Nat.eqb_refl in Hin. destruct Hin; discriminate. }
  lia.
Qed.

(** X5. Once a delivery to a session has failed, the next broadcast does not try
    it again: with distinct entries, the second call targets the entries other
    than its sender that did not fail in the first. *)
Theorem next_broadcast_skips_failed_sessions {E : Externals}
    (m1 m2 : value) (sender1 sender2 : option WebSocket) (st : state E) :
  NoDup (active st) ->
  let st1 := fst (broadcast m1 sender1 st) in
  let failed := failed_to (events_between st st1) in
  let later := sent_to (events_between st1 (fst (broadcast m2 sender2 st1))) in
  later = others sender2
            (filter (fun c => negb (list_in c failed)) (active st)) /\
  (forall c, In c failed -> ~ In c later).
Proof.
  intros Hnd st1 failed later.
  destruct (broadcast_spec m1 sender1 st) as (w & evs & Hb & _).
  assert (Hf : failed = failed_to evs).
  { subst failed st1. rewrite Hb. simpl.
    now rewrite (events_between_app st _ evs). }
  assert (Ha : active st1 =
               filter (fun c => negb (list_in c failed)) (active st)).
  { subst st1. rewrite Hb. simpl. rewrite Hf. now apply drop_all_filter. }
  destruct (broadcast_spec m2 sender2 st1) as (w2 & evs2 & Hb2 & Hto2 & _).
  assert (Hl : later = others sender2 (active st1)).
  { subst later. rewrite Hb2. simpl.
    now rewrite (events_between_app st1 _ evs2). }
  split; [now rewrite Hl, Ha|].
  intros c Hc. rewrite Hl, Ha. unfold others. rewrite !filter_In.
  intros [[_ Hn] _]. apply list_in_In in Hc. rewrite Hc in Hn. discriminate.
Qed.

Lemma next_broadcast_skips_failed_sessions_witness :
  let E := scripted [2] true in
  let st := @mkState E [] [1; 2; 3] [] in
  let st1 := fst (broadcast (VStr "a") (Some 1) st) in
  sent_to (events_between st1 (fst (broadcast (VStr "b") (Some 3) st1))) = [1].
Proof.
  intros E st st1.
  destruct (next_broadcast_skips_failed_sessions
              (VStr "a") (VStr "b") (Some 1) (Some 3) st) as (H & _).
  - repeat (constructor; [simpl; intuition congruence|]). constructor.
  - fold st1 in H. rewrite H. reflexivity.
Defined.

(** X6. A handshake that fails registers nothing: the exception of [accept]
    leaves [connect] and the endpoint at once, before any read of the store and
    any send. *)
Theorem failed_handshake_registers_nothing {E : Externals}
    (fuel : nat) (ws : WebSocket) (st : state E) (w : World) (e : exn) :
  ws_accept ws (world st) = (w, Raise e) ->
  connect ws st = (mkState w (active st) (trace st ++ [EvAccept ws false]),
                   Raise e) /\
  websocket_endpoint fuel ws st =
    Some (mkState w (active st) (trace st ++ [EvAccept ws false]), Raise e).
Proof.
  intros Ha.
  assert (Hc : connect ws st =
               (mkState w (active st) (trace st ++ [EvAccept ws false]),
                Raise e)).
  { unfold connect, bind, accept. rewrite Ha. reflexivity. }
  split; [exact Hc|]. unfold websocket_endpoint. now rewrite Hc.
Qed.

Lemma failed_handshake_registers_nothing_witness :
  let E := refusing [7] in
  let st := @mkState E [] [1; 2] [] in
  websocket_endpoint 5 7 st =
    Some (@mkState E [] [1; 2] [EvAccept 7 false], Raise RuntimeError).
Proof.
  intros E st.
  destruct (failed_handshake_registers_nothing 5 7 st [] RuntimeError)
    as (_ & H); [reflexivity | exact H].
Defined.

(** ** The stroke schema *)

Section SchemaFacts.
Context {E : Externals}.

Lemma validate_size_range (field : option value) (q : Q) :
  validate_size field = Some q -> (1 # 1 <= q /\ q <= 100 # 1)%Q.
Proof.
  unfold validate_size. destruct field as [v|].
  - destruct (float_validator v) as [q'|]; [|discriminate].
    destruct (Qle_bool (1 # 1) q') eqn:H1; [|discriminate].
    destruct (Qle_bool q' (100 # 1)) eqn:H2; [|discriminate].
    simpl. intros [= <-]. split; now apply Qle_bool_iff.
  - intros [= <-]. split; unfold Qle; simpl; lia.
Qed.

Lemma StrokeModel_init_inv (kwargs : dict) (s : StrokeModel) :
  StrokeModel_init kwargs = Ok s ->
  exists pv,
    dict_get "points" kwargs = Some pv /\
    validate_points pv = Some (points s) /\
    validate_color (dict_get "color" kwargs) = Some (color s) /\
    validate_size (dict_get "size" kwargs) = Some (size s) /\
    validate_user (dict_get "user" kwargs) = Some (user s).
Proof.
  unfold StrokeModel_init.
  destruct (dict_get "points" kwargs) as [pv|]; [|discriminate].
  destruct (validate_points pv) as [p|] eqn:Hp; [|discriminate].
  destruct (validate_color (dict_get "color" kwargs)) as [c|] eqn:Hc;
    [|discriminate].
  destruct (validate_size (dict_get "size" kwargs)) as [z|] eqn:Hz;
    [|discriminate].
  destruct (validate_user (dict_get "user" kwargs)) as [u|] eqn:Hu;
    [|discriminate].
  intros [= <-]. exists pv. simpl. repeat split; assumption.
Qed.

Lemma validate_points_dump (pts : list (list Q)) :
  (forall q, float_validator (VNum q) = Some q) ->
  validate_points (VList (map (fun row => VList (map VNum row)) pts)) = Some pts.
Proof.
  intros Hf. unfold validate_points. rewrite map_map.
  induction pts as [|row pts IH]; simpl; [reflexivity|].
  rewrite IH. rewrite map_map.
  assert (Hrow : all_some (map (fun x => float_validator (VNum x)) row) = Some row).
  { clear IH. induction row as [|q row IHr]; simpl; [reflexivity|].
    now rewrite Hf, IHr. }
  now rewrite Hrow.
Qed.

End SchemaFacts.

(** X7. Every stroke the schema lets through has its size within [1, 100],
    whether the size came from the payload or from the default. *)
Theorem accepted_stroke_size_in_range {E : Externals}
    (kwargs : dict) (s : StrokeModel) :
  StrokeModel_init kwargs = Ok s ->
  (1 # 1 <= size s /\ size s <= 100 # 1)%Q.
Proof.
  intros H. apply StrokeModel_init_inv in H.
  destruct H as (pv & _ & _ & _ & Hs & _).
  exact (validate_size_range _ _ Hs).
Qed.

Lemma accepted_stroke_size_in_range_witness :
  (1 # 1 <= 8 # 1 /\ 8 # 1 <= 100 # 1)%Q.
Proof.
  exact (accepted_stroke_size_in_range (E := scripted [] true)
           [("points", sample_points); ("size", VNum (8 # 1))]
           (mkStroke [[(0 # 1)%Q; (0 # 1)%Q]; [(1 # 1)%Q; (1 # 1)%Q]]
                     "#ff0055" (8 # 1)%Q None)
           eq_refl).
Defined.

(** X8. A field the payload does not carry takes its declared default: the
    colour [#ff0055], the size 8, no user; an explicit [null] user is no user
    either. *)
Theorem absent_fields_take_defaults {E : Externals}
    (kwargs : dict) (s : StrokeModel) :
  StrokeModel_init kwargs = Ok s ->
  (dict_get "color" kwargs = None -> color s = "#ff0055") /\
  (dict_get "size" kwargs = None -> size s = (8 # 1)%Q) /\
  (dict_get "user" kwargs = None -> user s = None) /\
  (dict_get "user" kwargs = Some VNone -> user s = None).
Proof.
  intros H. apply StrokeModel_init_inv in H.
  destruct H as (pv & _ & _ & Hc & Hs & Hu).
  repeat split; intros Hk.
  - rewrite Hk in Hc. simpl in Hc. congruence.
  - rewrite Hk in Hs. simpl in Hs. congruence.
  - rewrite Hk in Hu. simpl in Hu. congruence.
  - rewrite Hk in Hu. simpl in Hu. congruence.
Qed.

Lemma absent_fields_take_defaults_witness :
  let s := mkStroke [[(0 # 1)%Q; (0 # 1)%Q]; [(1 # 1)%Q; (1 # 1)%Q]]
                    "#ff0055" (8 # 1)%Q None in
  color s = "#ff0055" /\ size s = (8 # 1)%Q /\ user s = None.
Proof.
  intros s.
  destruct (absent_fields_take_defaults (E := scripted [] true)
              [("points", sample_points)] s eq_refl) as (Hc & Hs & Hu & _).
  split; [apply Hc; reflexivity|].
  split; [apply Hs; reflexivity | apply Hu; reflexivity].
Defined.

(** X9. What [model_dump] writes, the schema reads back: for validators that
    take a number as a float and a string as a string, a stroke with its size
    in range is rebuilt unchanged from its own dump. *)
Theorem model_dump_round_trip {E : Externals} (s : StrokeModel) :
  (forall q, float_validator (VNum q) = Some q) ->
  (forall t, str_validator (VStr t) = Some t) ->
  (1 # 1 <= size s)%Q -> (size s <= 100 # 1)%Q ->
  StrokeModel_init (model_dump s) = Ok s.
Proof.
  intros Hf Hs Hlo Hhi. destruct s as [p c z u]. simpl in Hlo, Hhi.
  unfold StrokeModel_init.
  change (dict_get "points" (model_dump (mkStroke p c z u)))
    with (Some (VList (map (fun row => VList (map VNum row)) p))).
  change (dict_get "color" (model_dump (mkStroke p c z u))) with (Some (VStr c)).
  change (dict_get "size" (model_dump (mkStroke p c z u))) with (Some (VNum z)).
  change (dict_get "user" (model_dump (mkStroke p c z u)))
    with (Some (match u with Some t => VStr t | None => VNone end)).
  cbv beta iota. rewrite (validate_points_dump p Hf).
  unfold validate_color, validate_size, validate_user. rewrite Hs, Hf.
  apply Qle_bool_iff in Hlo, Hhi. rewrite Hlo, Hhi. simpl.
  destruct u as [t|]; simpl; [now rewrite Hs | reflexivity].
Qed.

Lemma model_dump_round_trip_witness :
  let s := mkStroke [[(0 # 1)%Q; (3 # 2)%Q]] "#00ff00" (25 # 2)%Q (Some "ada") in
  @StrokeModel_init (scripted [] true) (model_dump s) = Ok s.
Proof.
  intros s.
  apply (model_dump_round_trip (E := scripted [] true) s).
  - reflexivity.
  - reflexivity.
  - unfold Qle. simpl. lia.
  - unfold Qle. simpl. lia.
Defined.

(** ** Dicts as the code uses them *)

Lemma dict_get_set_same (k : string) (v : value) (d : dict) :
  dict_get k (dict_set k v d) = Some v.
Proof.
  induction d as [|[k' v'] rest IH]; simpl.
  - now rewrite String.eqb_refl.
  - destruct (String.eqb k k') eqn:Hk; simpl; rewrite Hk; [reflexivity | exact IH].
Qed.

Lemma dict_get_set_other (k k' : string) (v : value) (d : dict) :
  k <> k' -> dict_get k (dict_set k' v d) = dict_get k d.
Proof.
  intros Hne. induction d as [|[k2 v2] rest IH]; simpl.
  - apply String.eqb_neq in Hne. now rewrite Hne.
  - destruct (String.eqb k' k2) eqn:H2; simpl; [|now rewrite IH].
    apply String.eqb_eq in H2. subst k2.
    apply String.eqb_neq in Hne. now rewrite Hne.
Qed.

Lemma dict_get_del_other (k k' : string) (d : dict) :
  k <> k' -> dict_get k (dict_del k' d) = dict_get k d.
Proof.
  intros Hne. induction d as [|[k2 v2] rest IH]; simpl; [reflexivity|].
  destruct (String.eqb k' k2) eqn:H2; simpl.
  - apply String.eqb_eq in H2. subst k2.
    apply String.eqb_neq in Hne. now rewrite Hne.
  - now rewrite IH.
Qed.

Lemma dict_get_none (k : string) (d : dict) :
  dict_get k d = None <-> ~ In k (map fst d).
Proof.
  induction d as [|[k' v'] rest IH]; simpl; [tauto|].
  destruct (String.eqb_spec k k') as [->|Hne].
  - split; [discriminate | tauto].
  - rewrite IH. split; [intros H [Hk|Hk]; [congruence | tauto] | tauto].
Qed.

Lemma dict_get_in (k : string) (v : value) (d : dict) :
  dict_get k d = Some v -> In (k, v) d.
Proof.
  induction d as [|[k' v'] rest IH]; simpl; [discriminate|].
  destruct (String.eqb_spec k k') as [->|Hne]; [intros [= ->]; auto | auto].
Qed.

Lemma in_dict_get (k : string) (v : value) (d : dict) :
  unique_keys d -> In (k, v) d -> dict_get k d = Some v.
Proof.
  unfold unique_keys.
  induction d as [|[k' v'] rest IH]; simpl; [tauto|].
  intros Hnd [Hin|Hin]; inversion Hnd as [|? ? Hk Hrest]; subst.
  - injection Hin as -> ->. now rewrite String.eqb_refl.
  - destruct (String.eqb_spec k k') as [->|Hne]; [|auto].
    destruct Hk. apply (in_map fst) in Hin. exact Hin.
Qed.

Lemma in_dict_del (k : string) (kv : string * value) (d : dict) :
  unique_keys d -> In kv (dict_del k d) -> In kv d /\ fst kv <> k.
Proof.
  unfold unique_keys.
  induction d as [|[k' v'] rest IH]; simpl; [tauto|].
  intros Hnd. inversion Hnd as [|? ? Hk Hrest]; subst.
  destruct (String.eqb_spec k k') as [->|Hne]; simpl.
  - intros Hin. split; [auto|]. intros <-. apply Hk. now apply in_map.
  - intros [<-|Hin]; [split; [auto | simpl; congruence]|].
    destruct (IH Hrest Hin). auto.
Qed.

Lemma keys_del_incl (k x : string) (d : dict) :
  In x (map fst (dict_del k d)) -> In x (map fst d).
Proof.
  induction d as [|[k' v'] rest IH]; simpl; [tauto|].
  destruct (String.eqb k k'); simpl; tauto.
Qed.

Lemma unique_keys_del (k : string) (d : dict) :
  unique_keys d -> unique_keys (dict_del k d).
Proof.
  unfold unique_keys.
  induction d as [|[k' v'] rest IH]; simpl; [auto|].
  intros Hnd. inversion Hnd as [|? ? Hk Hrest]; subst.
  destruct (String.eqb k k'); simpl; [assumption|].
  constructor; [|auto]. intros Hin. apply Hk. eapply keys_del_incl, Hin.
Qed.

Lemma in_dict_set (k : string) (v : value) (kv : string * value) (d : dict) :
  In kv (dict_set k v d) -> kv = (k, v) \/ In kv d.
Proof.
  induction d as [|[k' v'] rest IH]; simpl; [intuition congruence|].
  destruct (String.eqb_spec k k') as [->|Hne]; simpl; [intuition congruence|].
  intros [H|H]; [auto | destruct (IH H); auto].
Qed.

Lemma keys_set_incl (k x : string) (v : value) (d : dict) :
  In x (map fst (dict_set k v d)) -> x = k \/ In x (map fst d).
Proof.
  induction d as [|[k' v'] rest IH]; simpl; [intuition congruence|].
  destruct (String.eqb_spec k k') as [->|Hne]; simpl; [intuition congruence|].
  intros [H|H]; [auto | destruct (IH H); auto].
Qed.

Lemma unique_keys_set (k : string) (v : value) (d : dict) :
  unique_keys d -> unique_keys (dict_set k v d).
Proof.
  unfold unique_keys.
  induction d as [|[k' v'] rest IH]; simpl.
  - intros _. repeat constructor. simpl. tauto.
  - intros Hnd. inversion Hnd as [|? ? Hk Hrest]; subst.
    destruct (String.eqb_spec k k') as [->|Hne]; simpl; [assumption|].
    constructor; [|auto]. intros Hin.
    apply keys_set_incl in Hin. destruct Hin; [congruence | contradiction].
Qed.

(** *** The timestamp step of [serialize_doc] *)

Lemma isoformat_field_cons_other (k k' : string) (v' : value) (rest : dict) :
  k <> k' ->
  isoformat_field k ((k', v') :: rest) = (k', v') :: isoformat_field k rest.
Proof.
  intros Hne. apply String.eqb_neq in Hne.
  unfold isoformat_field. simpl. rewrite Hne.
  destruct (dict_get k rest) as [[]|]; simpl; now rewrite ?Hne.
Qed.

(** With one entry per key the step rewrites the entry of [k], if it is a
    [datetime], and nothing else. *)
Lemma isoformat_field_map (k : string) (d : dict) :
  unique_keys d ->
  isoformat_field k d =
  map (fun kv => if String.eqb k (fst kv)
                 then (fst kv, isoformat_value (snd kv)) else kv) d.
Proof.
  unfold unique_keys.
  induction d as [|[k' v'] rest IH]; [reflexivity|].
  intros Hnd. inversion Hnd as [|? ? Hk Hrest]; subst.
  destruct (String.eqb_spec k k') as [->|Hne].
  - assert (Hid : map (fun kv => if String.eqb k' (fst kv)
                                 then (fst kv, isoformat_value (snd kv))
                                 else kv) rest = rest).
    { clear IH Hnd Hrest. induction rest as [|[k2 v2] rest IHr]; [reflexivity|].
      simpl in *. destruct (String.eqb_spec k' k2) as [->|H2]; [tauto|].
      rewrite IHr; tauto. }
    cbn [map fst snd]. rewrite String.eqb_refl, Hid.
    unfold isoformat_field. simpl. rewrite String.eqb_refl.
    destruct v'; simpl; rewrite ?String.eqb_refl; reflexivity.
  - rewrite isoformat_field_cons_other by assumption.
    cbn [map fst snd]. apply String.eqb_neq in Hne. rewrite Hne.
    now rewrite IH.
Qed.

Lemma dict_get_isoformat_other (k k' : string) (d : dict) :
  k <> k' -> dict_get k (isoformat_field k' d) = dict_get k d.
Proof.
  intros Hne. unfold isoformat_field.
  destruct (dict_get k' d) as [[]|]; try reflexivity.
  now apply dict_get_set_other.
Qed.

Lemma dict_get_isoformat_same (k : string) (d : dict) :
  dict_get k (isoformat_field k d) = option_map isoformat_value (dict_get k d).
Proof.
  unfold isoformat_field.
  destruct (dict_get k d) as [v|] eqn:Hg; [|now rewrite Hg].
  destruct v; simpl; rewrite ?Hg; try reflexivity.
  apply dict_get_set_same.
Qed.

Lemma isoformat_field_id (k : string) (d : dict) :
  (forall iso, dict_get k d <> Some (VDatetime iso)) ->
  isoformat_field k d = d.
Proof.
  intros H. unfold isoformat_field.
  destruct (dict_get k d) as [[]|]; try reflexivity.
  now destruct (H iso).
Qed.

Lemma isoformat_value_not_datetime (o : option value) (iso : string) :
  option_map isoformat_value o <> Some (VDatetime iso).
Proof. destruct o as [[]|]; simpl; congruence. Qed.

Lemma isoformat_step (k : string) (ts : list string) (d : dict) :
  unique_keys d ->
  Forall (dumpable_but (k :: ts)) d ->
  unique_keys (isoformat_field k d) /\
  Forall (dumpable_but ts) (isoformat_field k d).
Proof.
  intros Hu Hall. rewrite (isoformat_field_map k d Hu). split.
  - unfold unique_keys in *. rewrite map_map.
    erewrite map_ext; [exact Hu|].
    intros [k' v']. simpl. now destruct (String.eqb k k').
  - apply Forall_map. revert Hall. apply Forall_impl.
    intros [k' v'] Hd. unfold dumpable_but in *. simpl in *.
    destruct (String.eqb_spec k k') as [->|Hne]; simpl.
    + left. destruct Hd as [Hs|[_ [iso ->]]]; [|reflexivity].
      destruct v'; simpl in *; congruence.
    + destruct Hd as [Hs|[[Hk|Hk] Hdt]]; [auto | congruence | auto].
Qed.

Lemma dict_get_del_same (k : string) (d : dict) :
  unique_keys d -> dict_get k (dict_del k d) = None.
Proof.
  intros Hu. apply dict_get_none. intros Hin.
  apply in_map_iff in Hin. destruct Hin as ([k' v'] & Hk & Hin).
  simpl in Hk. subst k'.
  destruct (in_dict_del k (k, v') d Hu Hin) as [_ Hne]. now apply Hne.
Qed.

(** ** serialize_doc *)

Section SerializeFacts.
Context {E : Externals}.

(** The dict after the [_id] step of [serialize_doc]. *)
Lemma serialize_doc_unfold (doc : dict) :
  serialize_doc doc =
  isoformat_field "updated_at"
    (isoformat_field "created_at"
       match dict_get "_id" doc with
       | None | Some VNone => doc
       | Some oid => dict_set "id" (VStr (py_str oid)) (dict_del "_id" doc)
       end).
Proof. reflexivity. Qed.

Lemma dict_get_serialize_other (k : string) (doc : dict) :
  k <> "_id" -> k <> "id" -> k <> "created_at" -> k <> "updated_at" ->
  dict_get k (serialize_doc doc) = dict_get k doc.
Proof.
  intros H1 H2 H3 H4. rewrite serialize_doc_unfold.
  rewrite !dict_get_isoformat_other by assumption.
  destruct (dict_get "_id" doc) as [[]|]; try reflexivity;
    now rewrite dict_get_set_other, dict_get_del_other.
Qed.

Lemma dict_get_serialize_timestamps (doc : dict) :
  dict_get "created_at" (serialize_doc doc)
    = option_map isoformat_value (dict_get "created_at" doc) /\
  dict_get "updated_at" (serialize_doc doc)
    = option_map isoformat_value (dict_get "updated_at" doc).
Proof.
  rewrite serialize_doc_unfold. split.
  - rewrite dict_get_isoformat_other by discriminate.
    rewrite dict_get_isoformat_same. f_equal.
    destruct (dict_get "_id" doc) as [[]|]; try reflexivity;
      now rewrite dict_get_set_other, dict_get_del_other by discriminate.
  - rewrite dict_get_isoformat_same. f_equal.
    rewrite dict_get_isoformat_other by discriminate.
    destruct (dict_get "_id" doc) as [[]|]; try reflexivity;
      now rewrite dict_get_set_other, dict_get_del_other by discriminate.
Qed.

Lemma dict_get_serialize_object_id (doc : dict) :
  unique_keys doc ->
  dict_get "_id" (serialize_doc doc) =
  match dict_get "_id" doc with
  | Some VNone => Some VNone
  | _ => None
  end.
Proof.
  intros Hu. rewrite serialize_doc_unfold.
  rewrite !dict_get_isoformat_other by discriminate.
  destruct (dict_get "_id" doc) as [[]|] eqn:Hid; try exact Hid;
    rewrite dict_get_set_other by discriminate;
    now apply dict_get_del_same.
Qed.

End SerializeFacts.

(** X10. For a document with one entry per key: an [_id] that is not [None] is
    taken out and comes back as its string under [id], replacing whatever [id]
    was there; a missing or [None] [_id] leaves both keys as they are. *)
Theorem serialize_doc_moves_object_id {E : Externals} (doc : dict) :
  unique_keys doc ->
  dict_get "id" (serialize_doc doc) =
    match dict_get "_id" doc with
    | None | Some VNone => dict_get "id" doc
    | Some oid => Some (VStr (py_str oid))
    end /\
  dict_get "_id" (serialize_doc doc) =
    match dict_get "_id" doc with
    | Some VNone => Some VNone
    | _ => None
    end.
Proof.
  intros Hu. split; [|now apply dict_get_serialize_object_id].
  rewrite serialize_doc_unfold.
  rewrite !dict_get_isoformat_other by discriminate.
  destruct (dict_get "_id" doc) as [[]|]; try reflexivity;
    apply dict_get_set_same.
Qed.

Lemma serialize_doc_moves_object_id_witness :
  let E := scripted [] true in
  dict_get "id" (serialize_doc stored_stroke) = Some (VStr "65f0c0ffee") /\
  dict_get "_id" (serialize_doc stored_stroke) = None.
Proof.
  intros E.
  apply (serialize_doc_moves_object_id (E := E) stored_stroke).
  unfold unique_keys. simpl.
  repeat (constructor; [simpl; intuition discriminate|]). constructor.
Defined.

(** X11. Every field other than [_id] and [id] keeps its value, except that a
    [datetime] under [created_at] or [updated_at] becomes its ISO text; a
    [datetime] under any other key stays a [datetime]. *)
Theorem serialize_doc_keeps_other_fields {E : Externals} (k : string) (doc : dict) :
  k <> "_id" -> k <> "id" ->
  dict_get k (serialize_doc doc) =
    if String.eqb k "created_at" || String.eqb k "updated_at"
    then option_map isoformat_value (dict_get k doc)
    else dict_get k doc.
Proof.
  intros H1 H2.
  destruct (dict_get_serialize_timestamps doc) as [Hc Hu].
  destruct (String.eqb_spec k "created_at") as [->|H3]; [exact Hc|].
  destruct (String.eqb_spec k "updated_at") as [->|H4]; [exact Hu|].
  now apply dict_get_serialize_other.
Qed.

Lemma serialize_doc_keeps_other_fields_witness :
  let E := scripted [] true in
  dict_get "created_at" (serialize_doc stored_stroke)
    = Some (VStr "2024-03-12T10:00:00") /\
  dict_get "size" (serialize_doc stored_stroke) = Some (VNum (8 # 1)).
Proof.
  intros E. split.
  - apply (serialize_doc_keeps_other_fields (E := E) "created_at" stored_stroke);
      discriminate.
  - apply (serialize_doc_keeps_other_fields (E := E) "size" stored_stroke);
      discriminate.
Defined.

(** X12. Serialising twice is serialising once, for a document with one entry
    per key. *)
Theorem serialize_doc_idempotent {E : Externals} (doc : dict) :
  unique_keys doc ->
  serialize_doc (serialize_doc doc) = serialize_doc doc.
Proof.
  intros Hu.
  pose proof (dict_get_serialize_object_id doc Hu) as Hid.
  destruct (dict_get_serialize_timestamps doc) as [Hc Hup].
  rewrite (serialize_doc_unfold (serialize_doc doc)).
  assert (Hstep : match dict_get "_id" (serialize_doc doc) with
                  | None | Some VNone => serialize_doc doc
                  | Some oid => dict_set "id" (VStr (py_str oid))
                                         (dict_del "_id" (serialize_doc doc))
                  end = serialize_doc doc).
  { rewrite Hid. now destruct (dict_get "_id" doc) as [[]|]. }
  rewrite Hstep.
  rewrite (isoformat_field_id "created_at");
    [|intros iso; rewrite Hc; apply isoformat_value_not_datetime].
  apply isoformat_field_id.
  intros iso. rewrite Hup. apply isoformat_value_not_datetime.
Qed.

Lemma serialize_doc_idempotent_witness :
  let E := scripted [] true in
  serialize_doc (serialize_doc stored_stroke) = serialize_doc stored_stroke.
Proof.
  intros E.
  apply (serialize_doc_idempotent (E := E) stored_stroke).
  unfold unique_keys. simpl.
  repeat (constructor; [simpl; intuition discriminate|]). constructor.
Defined.

(** X13. [serialize_doc] does its job: if, apart from [_id], every value of the
    document is one [json.dumps] accepts, or is a [datetime] under
    [created_at] or [updated_at], then [json.dumps] accepts the result. *)
Theorem serialize_doc_result_is_serialisable {E : Externals} (doc : dict) :
  unique_keys doc ->
  (forall kv, In kv doc -> fst kv <> "_id" ->
              dumpable_but ["created_at"; "updated_at"] kv) ->
  json_dumps (VDict (serialize_doc doc)) = Ok (VDict (serialize_doc doc)).
Proof.
  intros Hu Hall. rewrite serialize_doc_unfold.
  set (d1 := match dict_get "_id" doc with
             | None | Some VNone => doc
             | Some oid => dict_set "id" (VStr (py_str oid)) (dict_del "_id" doc)
             end).
  assert (H1 : unique_keys d1 /\
               Forall (dumpable_but ["created_at"; "updated_at"]) d1).
  { assert (Hkeep : forall v, dict_get "_id" doc = Some v ->
                              serialisable v = true ->
                              Forall (dumpable_but ["created_at"; "updated_at"]) doc).
    { intros v Hg Hs. apply Forall_forall. intros [k' v'] Hin.
      destruct (String.eqb_spec k' "_id") as [->|Hne]; [|now apply Hall].
      left. simpl. rewrite (in_dict_get _ _ _ Hu Hin) in Hg. congruence. }
    assert (Hmove : forall oid,
              unique_keys (dict_set "id" (VStr (py_str oid)) (dict_del "_id" doc)) /\
              Forall (dumpable_but ["created_at"; "updated_at"])
                     (dict_set "id" (VStr (py_str oid)) (dict_del "_id" doc))).
    { intros oid. split; [now apply unique_keys_set, unique_keys_del|].
      apply Forall_forall. intros kv Hin.
      apply in_dict_set in Hin. destruct Hin as [->|Hin]; [now left|].
      apply (in_dict_del _ _ _ Hu) in Hin. destruct Hin. now apply Hall. }
    subst d1. destruct (dict_get "_id" doc) as [v|] eqn:Hg.
    - destruct v; try apply Hmove. split; [exact Hu|].
      now apply (Hkeep VNone).
    - split; [exact Hu|]. apply Forall_forall. intros kv Hin. apply Hall; auto.
      intros Hk. apply dict_get_none in Hg. apply Hg.
      rewrite <- Hk. now apply in_map. }
  destruct H1 as [Hu1 Hall1].
  destruct (isoformat_step "created_at" ["updated_at"] d1 Hu1 Hall1)
    as [Hu2 Hall2].
  destruct (isoformat_step "updated_at" [] _ Hu2 Hall2) as [_ Hall3].
  unfold json_dumps. cbn [serialisable].
  assert (Hf : forallb (fun kv => serialisable (snd kv))
                 (isoformat_field "updated_at"
                    (isoformat_field "created_at" d1)) = true).
  { apply forallb_forall. intros kv Hin.
    rewrite Forall_forall in Hall3. destruct (Hall3 kv Hin) as [Hs|[[] _]].
    exact Hs. }
  now rewrite Hf.
Qed.

Lemma serialize_doc_result_is_serialisable_witness :
  let E := scripted [] true in
  json_dumps (VDict (serialize_doc stored_stroke))
    = Ok (VDict (serialize_doc stored_stroke)).
Proof.
  intros E.
  apply (serialize_doc_result_is_serialisable (E := E) stored_stroke).
  - unfold unique_keys. simpl.
    repeat (constructor; [simpl; intuition discriminate|]). constructor.
  - intros kv Hin Hne. unfold dumpable_but. simpl in Hin.
    destruct Hin as [<-|[<-|[<-|[<-|[<-|[<-|[]]]]]]]; simpl in *;
      first [ exfalso; apply Hne; reflexivity
            | left; reflexivity
            | right; split; [auto | eexists; reflexivity] ].
Defined.

(** ** What a handler writes to the trace *)

Lemma texts_to_app (ws : WebSocket) (a b : list event) :
  texts_to ws (a ++ b) = texts_to ws a ++ texts_to ws b.
Proof.
  induction a as [|e a IH]; simpl; [reflexivity|].
  destruct e; simpl; try exact IH.
  destruct (Nat.eqb ws0 ws); simpl; now rewrite IH.
Qed.

Lemma texts_to_not_sent (ws : WebSocket) (evs : list event) :
  ~ In ws (sent_to evs) -> texts_to ws evs = [].
Proof.
  induction evs as [|e evs IH]; simpl; [reflexivity|].
  destruct e; simpl; try exact IH.
  destruct (Nat.eqb_spec ws0 ws) as [->|Hne]; intros H; [tauto|].
  apply IH. tauto.
Qed.

Section Emits.
Context {E : Externals}.
Variable Q : list event -> Prop.
Hypothesis Q_nil : Q [].
Hypothesis Q_app : forall a b, Q a -> Q b -> Q (a ++ b).

Lemma emits_ret {A} (a : A) : emits Q (ret a).
Proof. intros st. exists []. simpl. now rewrite app_nil_r. Qed.

Lemma emits_lift {A} (r : result A) : emits Q (@lift E A r).
Proof. intros st. exists []. simpl. now rewrite app_nil_r. Qed.

Lemma emits_bind {A B} (m : M E A) (f : A -> M E B) :
  emits Q m -> (forall a, emits Q (f a)) -> emits Q (bind m f).
Proof.
  intros Hm Hf st. unfold bind. destruct (Hm st) as (evs & Ht & Hq).
  destruct (m st) as [st1 [a|e]]; simpl in *; [|now exists evs].
  destruct (Hf a st1) as (evs' & Ht' & Hq').
  exists (evs ++ evs'). split; [|now apply Q_app].
  now rewrite Ht', Ht, app_assoc.
Qed.

Lemma emits_try_except {A} (m h : M E A) :
  emits Q m -> emits Q h -> emits Q (try_except m h).
Proof.
  intros Hm Hh st. unfold try_except. destruct (Hm st) as (evs & Ht & Hq).
  destruct (m st) as [st1 [a|e]]; simpl in *; [now exists evs|].
  destruct (Hh st1) as (evs' & Ht' & Hq').
  exists (evs ++ evs'). split; [|now apply Q_app].
  now rewrite Ht', Ht, app_assoc.
Qed.

Lemma emits_receive_text (ws : WebSocket) :
  (forall ok, Q [EvReceive ws ok]) -> emits Q (receive_text ws).
Proof.
  intros H st. unfold receive_text.
  destruct (ws_receive_text ws (world st)) as [w r]. now eexists.
Qed.

Lemma emits_persist (c : string) (doc : value) :
  (forall ok, Q [EvPersist c doc ok]) -> emits Q (persist c doc).
Proof.
  intros H st. unfold persist.
  destruct (create_document c doc (world st)) as [w r]. now eexists.
Qed.

Lemma emits_query (c : string) (f : value) (n : nat) :
  (forall ok, Q [EvQuery c n ok]) -> emits Q (query c f n).
Proof.
  intros H st. unfold query.
  destruct (get_documents c f n (world st)) as [w r]. now eexists.
Qed.

Lemma emits_send_text (ws : WebSocket) (text : value) :
  (forall ok, Q [EvSend ws text ok]) -> emits Q (send_text ws text).
Proof.
  intros H st. unfold send_text.
  destruct (ws_send_text ws text (world st)) as [w r]. now eexists.
Qed.

End Emits.

Section HandlerTrace.
Context {E : Externals}.

Lemma silent_nil (ws : WebSocket) : silent_to ws [].
Proof. reflexivity. Qed.

Lemma silent_app (ws : WebSocket) (a b : list event) :
  silent_to ws a -> silent_to ws b -> silent_to ws (a ++ b).
Proof. unfold silent_to. intros Ha Hb. now rewrite texts_to_app, Ha, Hb. Qed.

Lemma broadcast_silent_to_sender (ws : WebSocket) (text : value) :
  emits (silent_to ws) (broadcast text (Some ws)).
Proof.
  intros st. destruct (broadcast_spec text (Some ws) st)
    as (w & evs & Hb & Hto & _).
  exists evs. rewrite Hb. split; [reflexivity|].
  apply texts_to_not_sent. rewrite Hto. unfold others. rewrite filter_In.
  simpl. rewrite Nat.eqb_refl. intros [_ H]. discriminate.
Qed.

Lemma loop_body_silent_to_self (ws : WebSocket) :
  emits (silent_to ws) (loop_body ws).
Proof.
  pose proof (silent_nil ws) as Hn. pose proof (silent_app ws) as Ha.
  unfold loop_body.
  apply emits_bind; [assumption | now apply emits_receive_text |].
  intros data. destruct (json_loads data) as [payload|]; [|now apply emits_ret].
  apply emits_bind; [assumption | now apply emits_lift |]. intros ty.
  destruct (eq_str ty "stroke"); [|now apply emits_ret].
  destruct (match py_get payload "stroke" (VDict []) with
            | Ok obj => StrokeModel_unpack obj
            | Raise e => Raise e
            end) as [stroke|]; [|now apply emits_ret].
  apply emits_bind; [assumption | |].
  - apply emits_try_except; [assumption | | now apply emits_ret].
    apply emits_bind; [assumption | now apply emits_persist |].
    intros. now apply emits_ret.
  - intros sid. apply emits_bind; [assumption | now apply emits_lift |].
    intros text. apply broadcast_silent_to_sender.
Qed.

Lemma receive_loop_silent_to_self (ws : WebSocket) (fuel : nat)
    (st st' : state E) (e : exn) :
  receive_loop fuel ws st = Some (st', e) ->
  exists evs, trace st' = trace st ++ evs /\ silent_to ws evs.
Proof.
  revert st. induction fuel as [|fuel IH]; intros st; simpl; [discriminate|].
  destruct (loop_body_silent_to_self ws st) as (evs & Ht & Hq).
  destruct (loop_body ws st) as [st1 [[]|e1]]; simpl in Ht.
  - intros H. destruct (IH _ H) as (evs' & Ht' & Hq').
    exists (evs ++ evs'). split; [now rewrite Ht', Ht, app_assoc|].
    now apply silent_app.
  - intros [= <- <-]. now exists evs.
Qed.

Lemma fetch_initial_silent (ws : WebSocket) :
  emits (silent_to ws) fetch_initial.
Proof.
  pose proof (silent_nil ws) as Hn. pose proof (silent_app ws) as Ha.
  unfold fetch_initial.
  apply emits_try_except; [assumption | | now apply emits_ret].
  apply emits_bind; [assumption | | intros; now apply emits_lift].
  unfold list_strokes. destruct db_is_none; [now apply emits_ret|].
  apply emits_bind; [assumption | now apply emits_query |].
  intros. now apply emits_ret.
Qed.

(** The snapshot step sends its socket nothing, or one [init] envelope. *)
Lemma send_init_texts (ws : WebSocket) (st : state E) :
  exists evs,
    trace (fst (send_init ws st)) = trace st ++ evs /\
    (texts_to ws evs = [] \/
     exists initial, texts_to ws evs = [init_envelope initial]).
Proof.
  unfold send_init, bind at 1.
  destruct (fetch_initial_silent ws st) as (evs & Ht & Hq).
  destruct (fetch_initial st) as [st1 [initial|e]]; simpl in Ht;
    [|exists evs; auto].
  unfold bind, lift, json_dumps.
  destruct (serialisable (init_envelope initial)); [|exists evs; auto].
  unfold send_text.
  destruct (ws_send_text ws (init_envelope initial) (world st1)) as [w r].
  exists (evs ++ [EvSend ws (init_envelope initial) (is_ok r)]). simpl. split.
  - now rewrite Ht, app_assoc.
  - right. exists initial. rewrite texts_to_app, Hq. simpl.
    now rewrite Nat.eqb_refl.
Qed.

End HandlerTrace.

(** ** More on the session handler *)

(** X14. For a valid stroke that the store accepts, the envelope carries the
    identifier the store returned; the write is finished before the first
    send, and comes right after the receive. *)
Theorem valid_stroke_carries_store_id {E : Externals}
    (ws : WebSocket) (st : state E) (w1 w2 : World) (data : string) (d : dict)
    (stroke : StrokeModel) (i : string) :
  ws_receive_text ws (world st) = (w1, Ok data) ->
  json_loads data = Ok (VDict d) ->
  dict_get "type" d = Some (VStr "stroke") ->
  StrokeModel_unpack
    (match dict_get "stroke" d with Some v => v | None => VDict [] end)
    = Ok stroke ->
  create_document "stroke" (VDict (model_dump stroke)) w1 = (w2, Ok i) ->
  let envelope :=
    VDict [("type", VStr "stroke");
           ("stroke", VDict (model_dump stroke ++ [("id", VStr i)]))] in
  let st2 := mkState w2 (active st)
               (trace st ++ [EvReceive ws true;
                             EvPersist "stroke" (VDict (model_dump stroke)) true]) in
  loop_body ws st = broadcast envelope (Some ws) st2 /\
  snd (loop_body ws st) = Ok tt /\
  texts_sent (events_between st2 (fst (loop_body ws st)))
    = map (fun _ => envelope) (others (Some ws) (active st)).
Proof.
  intros Hrecv Hload Hty Hvalid Hstore envelope st2.
  assert (Hstep : loop_body ws st = broadcast envelope (Some ws) st2).
  { unfold loop_body, bind at 1, receive_text. rewrite Hrecv. simpl.
    rewrite Hload. unfold bind at 1, lift. simpl. rewrite Hty. simpl.
    rewrite Hvalid.
    unfold bind at 1, try_except, bind at 1, persist. simpl.
    rewrite Hstore. unfold ret, bind at 1, lift.
    rewrite (dumps_stroke_envelope stroke (VStr i) eq_refl).
    unfold st2, log. simpl. rewrite <- app_assoc. reflexivity. }
  destruct (broadcast_spec envelope (Some ws) st2)
    as (w & evs & Hb & Hto & Htx & _).
  split; [exact Hstep|]. split; [now rewrite Hstep, Hb|].
  rewrite Hstep, Hb. simpl.
  now rewrite (events_between_app st2 _ evs).
Qed.

Lemma valid_stroke_carries_store_id_witness :
  let E := scripted [] true in
  let st := @mkState E [Ok frame_stroke_ok] [1; 7] [] in
  snd (loop_body 7 st) = Ok tt.
Proof.
  intros E st.
  destruct (valid_stroke_carries_store_id (E := E) 7 st [] [] frame_stroke_ok
              [("type", VStr "stroke");
               ("stroke", VDict [("points", sample_points);
                                 ("color", VStr "#ff0055");
                                 ("size", VNum (8 # 1))])]
              (mkStroke [[(0 # 1)%Q; (0 # 1)%Q]; [(1 # 1)%Q; (1 # 1)%Q]]
                        "#ff0055" (8 # 1)%Q None)
              "65f0c0ffee")
    as (_ & H & _);
    [reflexivity | reflexivity | reflexivity | reflexivity | reflexivity
    | exact H].
Defined.

(** X15. Whatever arrives, a pass of the receive loop sends nothing to its own
    socket, and so does any number of passes. *)
Theorem receive_loop_never_sends_to_own_socket {E : Externals}
    (ws : WebSocket) (st : state E) :
  texts_to ws (events_between st (fst (loop_body ws st))) = [] /\
  (forall fuel st' e,
     receive_loop fuel ws st = Some (st', e) ->
     texts_to ws (events_between st st') = []).
Proof.
  split.
  - destruct (loop_body_silent_to_self ws st) as (evs & Ht & Hq).
    now rewrite (events_between_app _ _ _ Ht).
  - intros fuel st' e H.
    destruct (receive_loop_silent_to_self ws fuel st st' e H) as (evs & Ht & Hq).
    now rewrite (events_between_app _ _ _ Ht).
Qed.

Lemma receive_loop_never_sends_to_own_socket_witness :
  let E := scripted [] true in
  let st := @mkState E [Ok frame_stroke_ok; Ok frame_ping] [1; 7] [] in
  exists st' e,
    receive_loop 3 7 st = Some (st', e) /\
    texts_to 7 (events_between st st') = [].
Proof.
  intros E st. eexists. eexists. split; [reflexivity|].
  destruct (receive_loop_never_sends_to_own_socket 7 st) as (_ & Hl).
  apply (Hl 3 _ WebSocketDisconnect). reflexivity.
Defined.

(** X16. From the handshake to its end, a handler sends its own socket at most
    one message, and that one is an [init] envelope. *)
Theorem handler_sends_own_socket_only_init {E : Externals}
    (fuel : nat) (ws : WebSocket) (st st' : state E) (r : result unit) :
  websocket_endpoint fuel ws st = Some (st', r) ->
  texts_to ws (events_between st st') = [] \/
  exists initial,
    texts_to ws (events_between st st') = [init_envelope initial].
Proof.
  unfold websocket_endpoint.
  destruct (connect ws st) as [st1 [[]|e0]] eqn:Hc.
  - apply connect_inv in Hc. destruct Hc as [_ Ht1].
    destruct (send_init_texts ws st1) as (evs & Ht2 & Hq).
    destruct (send_init ws st1) as [st2 [[]|e]]; simpl in Ht2.
    + destruct (receive_loop fuel ws st2) as [[st3 e]|] eqn:Hl; [|discriminate].
      destruct (receive_loop_silent_to_self ws fuel st2 st3 e Hl)
        as (evs3 & Ht3 & Hq3).
      intros [= H]. rewrite on_exception_spec in H.
      assert (Htr : trace st' = trace st ++ ([EvAccept ws true] ++ evs) ++ evs3).
      { destruct (is_disconnect e); inversion H; subst; simpl;
          rewrite Ht3, Ht2, Ht1, <- !app_assoc; reflexivity. }
      assert (Hx : texts_to ws (events_between st st') = texts_to ws evs).
      { rewrite (events_between_app _ _ _ Htr), !texts_to_app.
        unfold silent_to in Hq3. rewrite Hq3. simpl. apply app_nil_r. }
      rewrite Hx. exact Hq.
    + intros [= H]. rewrite on_exception_spec in H.
      assert (Htr : trace st' = trace st ++ [EvAccept ws true] ++ evs).
      { destruct (is_disconnect e); inversion H; subst; simpl;
          rewrite Ht2, Ht1, <- !app_assoc; reflexivity. }
      assert (Hx : texts_to ws (events_between st st') = texts_to ws evs).
      { now rewrite (events_between_app _ _ _ Htr), texts_to_app. }
      rewrite Hx. exact Hq.
  - intros [= <- <-]. left.
    unfold connect, bind, accept in Hc.
    destruct (ws_accept ws (world st)) as [w [[]|e1]]; simpl in Hc;
      [discriminate|].
    inversion Hc; subst. simpl.
    now rewrite (events_between_app st _ [EvAccept ws false]).
Qed.

Lemma handler_sends_own_socket_only_init_witness :
  let E := scripted [] true in
  let st := @mkState E [Ok frame_stroke_ok] [1] [] in
  exists st',
    websocket_endpoint 5 7 st = Some (st', Ok tt) /\
    (texts_to 7 (events_between st st') = [] \/
     exists initial,
       texts_to 7 (events_between st st') = [init_envelope initial]).
Proof.
  intros E st. eexists. split; [reflexivity|].
  apply (handler_sends_own_socket_only_init 5 7 st _ (Ok tt)). reflexivity.
Defined.

(** X17. For a session that was not registered before and whose handshake
    succeeded: if the handler returns normally the session is out of the
    registry; if it ends by an exception, that exception is not
    [WebSocketDisconnect] and the session is still registered, once. *)
Theorem handler_outcome_decides_cleanup {E : Externals}
    (fuel : nat) (ws : WebSocket) (st st' : state E) (r : result unit) :
  ~ In ws (active st) ->
  snd (connect ws st) = Ok tt ->
  websocket_endpoint fuel ws st = Some (st', r) ->
  match r with
  | Ok _ => ~ In ws (active st')
  | Raise e => e <> WebSocketDisconnect /\
               count_occ Nat.eq_dec (active st') ws = 1
  end.
Proof.
  intros Hnin Hc Hrun.
  destruct (endpoint_reaches_handler fuel ws st st' r Hc Hrun)
    as (st2 & e & Hh & Hcount).
  apply not_in_count_zero in Hnin. rewrite Hnin in Hcount.
  rewrite on_exception_spec in Hh.
  destruct (is_disconnect e) eqn:Hd; inversion Hh; subst; simpl.
  - apply not_in_count_zero. rewrite count_drop_first, Nat.eqb_refl, Hcount.
    reflexivity.
  - split; [intros ->; discriminate | exact Hcount].
Qed.

Lemma handler_outcome_decides_cleanup_witness :
  let E := scripted [] true in
  let st := @mkState E [Ok frame_ping] [1] [] in
  exists st',
    websocket_endpoint 5 7 st = Some (st', Ok tt) /\ ~ In 7 (active st').
Proof.
  intros E st. eexists. split; [reflexivity|].
  apply (handler_outcome_decides_cleanup 5 7 st _ (Ok tt)).
  - simpl. intuition lia.
  - reflexivity.
  - reflexivity.
Defined.

(** X18. The snapshot read of the join never raises and always yields a list:
    the [strokes] of [list_strokes(1000)] when that returns, the empty list
    when it raises.  It leaves the state as [list_strokes] leaves it. *)
Theorem fetch_initial_never_raises {E : Externals} (st : state E) :
  fetch_initial st =
  (fst (list_strokes 1000 st),
   Ok match snd (list_strokes 1000 st) with
      | Ok (VDict [("strokes", VList docs)]) => VList docs
      | _ => VList []
      end) /\
  exists docs, snd (fetch_initial st) = Ok (VList docs).
Proof.
  assert (Hshape : (exists docs, snd (list_strokes 1000 st)
                                 = Ok (VDict [("strokes", VList docs)])) \/
                   (exists e, snd (list_strokes 1000 st) = Raise e)).
  { unfold list_strokes. destruct db_is_none; [left; now eexists|].
    unfold bind, query.
    destruct (get_documents "stroke" (VDict []) 1000 (world st)) as [w [docs|e]];
      simpl; [left | right]; now eexists. }
  assert (Heq : fetch_initial st =
                (fst (list_strokes 1000 st),
                 Ok match snd (list_strokes 1000 st) with
                    | Ok (VDict [("strokes", VList docs)]) => VList docs
                    | _ => VList []
                    end)).
  { unfold fetch_initial, try_except, bind.
    destruct (list_strokes 1000 st) as [st1 r]. simpl in *.
    destruct Hshape as [[docs ->]|[e ->]]; reflexivity. }
  split; [exact Heq|]. rewrite Heq. simpl.
  destruct Hshape as [[docs ->]|[e ->]]; now eexists.
Qed.

(** X19. When the store answers, the join sends the stored strokes: one [init]
    envelope whose [strokes] are the documents of the query for collection
    [stroke] with limit 1000, each serialised, in the order of the store;
    provided [json.dumps] accepts each of them. *)
Theorem join_sends_stored_strokes {E : Externals}
    (ws : WebSocket) (st : state E) (w : World) (docs : list dict) :
  db_is_none = false ->
  get_documents "stroke" (VDict []) 1000 (world st) = (w, Ok docs) ->
  (forall d, In d docs -> serialisable (VDict (serialize_doc d)) = true) ->
  send_init ws st =
  send_text ws
    (VDict [("type", VStr "init");
            ("strokes", VList (map (fun d => VDict (serialize_doc d)) docs))])
    (mkState w (active st) (trace st ++ [EvQuery "stroke" 1000 true])).
Proof.
  intros Hdb Hq Hser.
  unfold send_init, fetch_initial, bind at 1, try_except, bind at 1.
  unfold list_strokes. rewrite Hdb. unfold bind at 1, query. rewrite Hq.
  simpl. unfold bind, lift, json_dumps.
  assert (Hs : serialisable
                 (init_envelope
                    (VList (map (fun d => VDict (serialize_doc d)) docs))) = true).
  { unfold init_envelope. cbn [serialisable forallb snd].
    rewrite andb_true_r. apply forallb_forall. intros v Hin.
    apply in_map_iff in Hin. destruct Hin as (d & <- & Hd). now apply Hser. }
  rewrite Hs. reflexivity.
Qed.

Lemma join_sends_stored_strokes_witness :
  let E := stocked [stored_stroke] in
  let st := @mkState E [] [7] [] in
  texts_sent (trace (fst (send_init 7 st))) =
    [VDict [("type", VStr "init");
            ("strokes",
             VList [VDict [("points", sample_points);
                           ("color", VStr "#ff0055");
                           ("size", VNum (8 # 1));
                           ("user", VNone);
                           ("created_at", VStr "2024-03-12T10:00:00");
                           ("id", VStr "65f0c0ffee")]])]].
Proof.
  intros E st.
  rewrite (join_sends_stored_strokes (E := E) 7 st [] [stored_stroke]).
  - reflexivity.
  - reflexivity.
  - reflexivity.
  - intros d [<-|[]]. reflexivity.
Defined.

(** X20. A stored document with a value [json.dumps] rejects under a key that
    [serialize_doc] does not treat (any key but [_id], [id], [created_at],
    [updated_at]) makes the join fail: [json.dumps] raises [TypeError] after
    the query and before anything is sent. *)
Theorem join_fails_on_unserialisable_document {E : Externals}
    (ws : WebSocket) (st : state E) (w : World) (docs : list dict)
    (d : dict) (k : string) (v : value) :
  db_is_none = false ->
  get_documents "stroke" (VDict []) 1000 (world st) = (w, Ok docs) ->
  In d docs ->
  dict_get k d = Some v -> serialisable v = false ->
  k <> "_id" -> k <> "id" -> k <> "created_at" -> k <> "updated_at" ->
  send_init ws st =
  (mkState w (active st) (trace st ++ [EvQuery "stroke" 1000 true]),
   Raise TypeError).
Proof.
  intros Hdb Hq Hin Hk Hv H1 H2 H3 H4.
  unfold send_init, fetch_initial, bind at 1, try_except, bind at 1.
  unfold list_strokes. rewrite Hdb. unfold bind at 1, query. rewrite Hq.
  simpl. unfold bind, lift, json_dumps.
  assert (Hs : serialisable
                 (init_envelope
                    (VList (map (fun d => VDict (serialize_doc d)) docs))) = false).
  { unfold init_envelope. cbn [serialisable forallb snd].
    rewrite andb_true_r. apply not_true_is_false. intros Hall.
    pose proof (proj1 (forallb_forall serialisable
                         (map (fun d => VDict (serialize_doc d)) docs)) Hall
                      (VDict (serialize_doc d))
                      (in_map (fun d => VDict (serialize_doc d)) docs d Hin))
      as Hd.
    pose proof (proj1 (forallb_forall (fun kv => serialisable (snd kv))
                         (serialize_doc d)) Hd) as Hentries.
    assert (Hg : dict_get k (serialize_doc d) = Some v)
      by (rewrite dict_get_serialize_other; assumption).
    apply dict_get_in in Hg. specialize (Hentries _ Hg). simpl in Hentries.
    congruence. }
  rewrite Hs. reflexivity.
Qed.

Lemma join_fails_on_unserialisable_document_witness :
  let d := [("points", sample_points);
            ("deleted_at", VDatetime "2024-03-13T09:30:00")] in
  let E := stocked [d] in
  let st := @mkState E [] [7] [] in
  send_init 7 st =
    (@mkState E [] [7] [EvQuery "stroke" 1000 true], Raise TypeError).
Proof.
  intros d E st.
  apply (join_fails_on_unserialisable_document (E := E) 7 st [] [d] d
           "deleted_at" (VDatetime "2024-03-13T09:30:00"));
    try reflexivity; try discriminate.
  simpl. auto.
Defined.

(** ** The HTTP endpoints *)

(** X21. [POST /api/strokes] writes to the store the same document the socket
    path writes for that stroke, and does nothing else: it sends to no
    session, so the sessions that are connected do not learn of the stroke, and
    it leaves the registry alone; a failure of the store is not caught but
    raised to the caller. *)
Theorem create_stroke_stores_without_broadcast {E : Externals}
    (stroke : StrokeModel) (st : state E) :
  let r := snd (create_document "stroke" (VDict (model_dump stroke)) (world st)) in
  let st' := fst (create_stroke stroke st) in
  events_between st st' =
    [EvPersist "stroke" (VDict (model_dump stroke)) (is_ok r)] /\
  active st' = active st /\
  snd (create_stroke stroke st) =
    match r with
    | Ok i => Ok (VDict [("id", VStr i)])
    | Raise e => Raise e
    end.
Proof.
  unfold create_stroke, bind, persist.
  destruct (create_document "stroke" (VDict (model_dump stroke)) (world st))
    as [w [i|e]]; simpl;
    (split; [now apply events_between_app | split; reflexivity]).
Qed.

(** X22. The two configuration lines of the diagnostic report say whether
    [DATABASE_URL] and [DATABASE_NAME] are set to a non-empty value, and
    nothing else: what the handle's [name] is, and whether there is a
    handle, does not show in them. *)
Theorem test_database_reports_environment {E : Externals}
    (db : Database) (getenv : string -> option string) :
  dict_get "database_url" (test_database db getenv)
    = Some (set_or_not (env_set (getenv "DATABASE_URL"))) /\
  dict_get "database_name" (test_database db getenv)
    = Some (set_or_not (env_set (getenv "DATABASE_NAME"))).
Proof.
  unfold test_database. split.
  - rewrite dict_get_set_other by discriminate. apply dict_get_set_same.
  - apply dict_get_set_same.
Qed.

(** X23. The report lists at most ten collections: the first ten names the
    handle returns, in order; none when there is no handle or the listing
    raises. *)
Theorem test_database_lists_first_ten {E : Externals}
    (db : Database) (getenv : string -> option string) :
  let shown :=
    if db_is_none then []
    else match list_collection_names db with
         | Names collections => firstn 10 collections
         | ListingError _ => []
         end in
  dict_get "collections" (test_database db getenv)
    = Some (VList (map VStr shown)) /\
  List.length shown <= 10.
Proof.
  intros shown. subst shown. split.
  - unfold test_database. rewrite !dict_get_set_other by discriminate.
    destruct db_is_none; [reflexivity|].
    destruct (list_collection_names db); reflexivity.
  - destruct db_is_none; [simpl; lia|].
    destruct (list_collection_names db); [apply firstn_le_length | simpl; lia].
Qed.

(** X24. The report never raises and always has the same six fields in the same
    order; [backend] always says running, and [connection_status] says
    connected exactly when there is a handle, whether or not the listing
    worked. *)
Theorem test_database_report_shape {E : Externals}
    (db : Database) (getenv : string -> option string) :
  map fst (test_database db getenv) = report_keys /\
  dict_get "backend" (test_database db getenv) = Some (VStr "✅ Running") /\
  dict_get "connection_status" (test_database db getenv)
    = Some (VStr (if db_is_none then "Not Connected" else "Connected")).
Proof.
  unfold test_database.
  destruct db_is_none; [repeat split|].
  destruct (list_collection_names db); repeat split.
Qed.

(** ** Sessions that join while a broadcast is under way *)

Section JoinsDuringBroadcast.
Context {E : Externals}.

Lemma fold_joins (ops : list regop) (l : list WebSocket) :
  joins_only ops ->
  exists joined,
    fold_left apply_op ops l = l ++ joined /\
    List.length joined = List.length ops.
Proof.
  revert l. induction ops as [|op ops IH]; intros l Hj; simpl.
  - exists []. now rewrite app_nil_r.
  - destruct (Hj op (or_introl eq_refl)) as [ws ->]. simpl.
    destruct (IH (l ++ [ws])) as (joined & Hf & Hl).
    { intros op Hin. apply Hj. now right. }
    exists (ws :: joined). rewrite Hf, <- app_assoc. simpl. auto.
Qed.

Lemma joins_hd_tl (schedule : list (list regop)) :
  Forall joins_only schedule ->
  joins_only (hd [] schedule) /\ Forall joins_only (tl schedule).
Proof.
  intros H. destruct schedule as [|ops rest]; simpl.
  - split; [intros op [] | constructor].
  - inversion H; auto.
Qed.

Lemma others_skipn_step (sender : option WebSocket) (l : list WebSocket)
    (i : nat) (c : WebSocket) :
  nth_error l i = Some c ->
  others sender (skipn i l) =
  if is_sender sender c then others sender (skipn (S i) l)
  else c :: others sender (skipn (S i) l).
Proof.
  intros H. rewrite (skipn_nth_some _ _ _ H). unfold others. simpl.
  now destruct (is_sender sender c).
Qed.

(** Where the loop ends, every entry from the iterator's index on has had
    its send, including the entries appended meanwhile. *)
Lemma iterate_reaches_joined (message : value) (sender : option WebSocket)
    (fuel i : nat) (schedule : list (list regop))
    (dead dead' : list WebSocket) (st st' : state E) :
  Forall joins_only schedule ->
  iterate fuel i schedule message sender dead st = Some (st', dead') ->
  exists evs joined,
    trace st' = trace st ++ evs /\
    active st' = active st ++ joined /\
    sent_to evs = others sender (skipn i (active st')).
Proof.
  revert i schedule dead st.
  induction fuel as [|fuel IH]; intros i schedule dead st Hj; [discriminate|].
  cbn [iterate]. destruct (nth_error (active st) i) as [c|] eqn:Hnth.
  - assert (Hlt : i < List.length (active st))
      by (apply nth_error_Some; congruence).
    destruct (is_sender sender c) eqn:Hs.
    + intros H. destruct (IH _ _ _ _ Hj H) as (evs & joined & Ht & Ha & Hto).
      exists evs, joined. repeat split; try assumption.
      rewrite (others_skipn_step sender (active st') i c), Hs; [exact Hto|].
      rewrite Ha, nth_error_app1 by assumption. exact Hnth.
    + unfold send_text.
      destruct (ws_send_text c message (world st)) as [w r].
      destruct (joins_hd_tl schedule Hj) as [Hhd Htl].
      destruct (fold_joins (hd [] schedule) (active st) Hhd)
        as (joined1 & Hf & _).
      intros H. destruct (IH _ _ _ _ Htl H) as (evs & joined & Ht & Ha & Hto).
      simpl in Ht, Ha. rewrite Hf in Ha.
      exists (EvSend c message (is_ok r) :: evs), (joined1 ++ joined).
      split; [now rewrite Ht, <- app_assoc|].
      split; [now rewrite Ha, <- app_assoc|].
      rewrite (others_skipn_step sender (active st') i c), Hs;
        [simpl; now f_equal|].
      rewrite Ha, <- app_assoc, nth_error_app1 by assumption. exact Hnth.
  - intros [= <- <-]. exists [], []. rewrite !app_nil_r.
    repeat split. now rewrite (skipn_nth_none _ _ Hnth).
Qed.

Lemma iterate_with_joins_terminates (message : value)
    (sender : option WebSocket) (fuel i : nat) (schedule : list (list regop))
    (dead : list WebSocket) (st : state E) :
  Forall joins_only schedule ->
  List.length (active st) + List.length (List.concat schedule) - i < fuel ->
  exists r, iterate fuel i schedule message sender dead st = Some r.
Proof.
  revert i schedule dead st.
  induction fuel as [|fuel IH]; intros i schedule dead st Hj Hfuel; [lia|].
  cbn [iterate]. destruct (nth_error (active st) i) as [c|] eqn:Hnth;
    [|now eexists].
  assert (Hlt : i < List.length (active st))
    by (apply nth_error_Some; congruence).
  destruct (is_sender sender c).
  - apply IH; [assumption | lia].
  - unfold send_text.
    destruct (ws_send_text c message (world st)) as [w r].
    destruct (joins_hd_tl schedule Hj) as [Hhd Htl].
    destruct (fold_joins (hd [] schedule) (active st) Hhd)
      as (joined1 & Hf & Hlen).
    apply IH; [assumption|]. simpl. rewrite Hf, length_app, Hlen.
    destruct schedule as [|ops rest]; simpl in *; [lia|].
    rewrite length_app in Hfuel. lia.
Qed.

End JoinsDuringBroadcast.

(** X25. When the other tasks only register sessions while a broadcast is
    suspended in its sends, the loop ends, given fuel beyond the entries there
    are and will be, and by then every entry of the registry other than the
    sender has had exactly its one send attempt, the newly registered ones
    included. *)
Theorem broadcast_reaches_sessions_that_join {E : Externals}
    (message : value) (sender : option WebSocket)
    (schedule : list (list regop)) (st : state E) :
  Forall joins_only schedule ->
  (forall fuel,
     List.length (active st) + List.length (List.concat schedule) < fuel ->
     exists st' dead,
       iterate fuel 0 schedule message sender [] st = Some (st', dead)) /\
  (forall fuel st' dead,
     iterate fuel 0 schedule message sender [] st = Some (st', dead) ->
     sent_to (events_between st st') = others sender (active st') /\
     exists joined, active st' = active st ++ joined).
Proof.
  intros Hj. split.
  - intros fuel Hfuel.
    destruct (iterate_with_joins_terminates message sender fuel 0 schedule []
                st Hj) as [[st' dead] H]; [lia|].
    now exists st', dead.
  - intros fuel st' dead H.
    destruct (iterate_reaches_joined message sender fuel 0 schedule [] dead
                st st' Hj H) as (evs & joined & Ht & Ha & Hto).
    rewrite (events_between_app _ _ _ Ht). split; [exact Hto|].
    now exists joined.
Qed.

Lemma broadcast_reaches_sessions_that_join_witness :
  let E := scripted [] true in
  let st := @mkState E [] [0; 1; 2] [] in
  exists st' dead,
    iterate 5 0 [[OpConnect 9]] (VStr "m") (Some 0) [] st = Some (st', dead) /\
    sent_to (events_between st st') = others (Some 0) (active st') /\
    active st' = [0; 1; 2; 9].
Proof.
  intros E st.
  exists (@mkState E [] [0; 1; 2; 9]
            [EvSend 1 (VStr "m") true; EvSend 2 (VStr "m") true;
             EvSend 9 (VStr "m") true]), [].
  split; [reflexivity|].
  destruct (broadcast_reaches_sessions_that_join (VStr "m") (Some 0)
              [[OpConnect 9]] st) as (_ & H).
  - repeat constructor. intros op [<-|[]]. now exists 9.
  - split; [|reflexivity].
    exact (proj1 (H 5 _ _ eq_refl)).
Defined.
